(** * RPI-MP3Player: the playback-position model of [mp3_player.py]

    A shallow embedding of class [MP3Player].  The instance attributes
    that carry the playback state become the record [Player]; every
    handler becomes a function on a [World], which pairs the player with
    the chronological log of the calls made on [pygame.mixer.music] and
    of the calls made on the widgets that carry a position or a notice.

    Conventions of the embedding:
    - seconds are rationals ([Q]), the values of the floats of the
      program; the sum [current_time + delta] of [seek], which is
      compared with the duration to choose a branch, is the sum as the
      machine rounds it, an answer of the environment ([float_add]); the
      other sums and differences are taken exact and results are
      compared with [==];
    - every [time.time()] of [seek] and [jump_to_position] is a reading
      of its own; in a run ([handle]) all readings within one handler
      call are the instant of the call;
    - whatever the mixer, mutagen, the file system and [random] answer is
      an input, gathered in [Env]; the successive answers of
      [pygame.mixer.music.get_busy()] are a list, consumed one per call;
    - a Python exception leaving a handler is the outcome [Raise];
    - logging, button states and the window set-up are not modelled. *)

From Stdlib Require Import List Bool ZArith QArith Qminmax Qround Qabs.
From Stdlib Require Import Lia Lqa.
From Stdlib Require Import String Ascii DecimalString Permutation.
Import ListNotations.
Open Scope Q_scope.

(** ** Rational comparisons as booleans *)

Definition Qlt_bool (x y : Q) : bool := negb (Qle_bool y x).

(** ** File names *)

Module Path.

Open Scope string_scope.

(** [str.lower()] on the ASCII letters, which are all that the
    extension test looks at. *)
Definition lower_ascii (c : ascii) : ascii :=
  let n := nat_of_ascii c in
  if (65 <=? n)%nat && (n <=? 90)%nat then ascii_of_nat (n + 32) else c.

Fixpoint lower (s : string) : string :=
  match s with
  | EmptyString => EmptyString
  | String c s' => String (lower_ascii c) (lower s')
  end.

(** [s.endswith(suffix)] *)
Definition endswith (s suffix : string) : bool :=
  let n := String.length s in
  let k := String.length suffix in
  (k <=? n)%nat && String.eqb (substring (n - k) k s) suffix.

(** The test both loaders apply: [name.lower().endswith(".mp3")]. *)
Definition is_mp3 (name : string) : bool := endswith (lower name) ".mp3".

(** [os.path.join(folder, file)] for a [file] that is a directory
    entry, on a POSIX system. *)
Definition join (folder file : string) : string :=
  if endswith folder "/" then folder ++ file else folder ++ "/" ++ file.

(** Truthiness of a string: [if file_path:]. *)
Definition nonempty (s : string) : bool :=
  match s with EmptyString => false | _ => true end.

End Path.

(** ** The data model *)

(** The playback attributes of [MP3Player.__init__]. *)
Record Player : Type := mkPlayer {
  current_file : option string;     (* None is Python's None *)
  playing : bool;
  paused : bool;
  track_length : Q;
  offset : Q;
  play_start_time : option Q;       (* None is Python's None *)
  playlist : list string;
  current_index : Z
}.

(** The state [__init__] leaves behind. *)
Definition init : Player :=
  mkPlayer None false false 0 0 None [] (-1).

(** Calls on [pygame.mixer.music], logged when they are made, whether
    the mixer then accepts them or raises. *)
Inductive Cmd : Type :=
| MusicLoad (path : string)
| MusicPlay (start : Q)
| MusicPause
| MusicUnpause
| MusicStop.

(** Calls on the widgets that report a notice or a position. *)
Inductive UiEvent : Type :=
| ShowError (title : string)
| ShowWarning (title : string)
| ProgressSet (percent : Q)
| StatusTime (is_paused : bool) (file : string) (current_time total : Q)
| StatusStopped
| After500.

Record World : Type := mkWorld {
  self : Player;
  engine : list Cmd;
  ui : list UiEvent
}.

Definition boot : World := mkWorld init [] [].

Inductive exn : Type :=
| PygameError | MutagenError | TypeError | ZeroDivisionError | OSError
| IndexError.

(** What a handler call ends in.  [Starved] is not a behaviour of the
    program: the list of [get_busy()] answers handed to the call was
    shorter than the number of times the call asked. *)
Inductive outcome : Type :=
| Ok (w : World)
| Raise (x : exn) (w : World)
| Starved.

(** The answers of the collaborators. *)
Record Env : Type := mkEnv {
  use_mutagen : bool;                   (* the module-level flag *)
  music_load : string -> bool;          (* false: music.load raises *)
  mp3_length : string -> option Q;      (* MP3(path).info.length; None: raises *)
  sound_length : string -> option Q;    (* Sound(path).get_length(); None: raises *)
  music_play : Q -> bool;               (* false: music.play(start) raises *)
  shuffle : list string -> list string; (* the order random.shuffle leaves *)
  float_add : Q -> Q -> Q               (* the float sum x + y, as rounded *)
}.

(** ** Field updates *)

Definition set_current_file (v : option string) (s : Player) : Player :=
  mkPlayer v (playing s) (paused s) (track_length s) (offset s)
           (play_start_time s) (playlist s) (current_index s).
Definition set_playing (v : bool) (s : Player) : Player :=
  mkPlayer (current_file s) v (paused s) (track_length s) (offset s)
           (play_start_time s) (playlist s) (current_index s).
Definition set_paused (v : bool) (s : Player) : Player :=
  mkPlayer (current_file s) (playing s) v (track_length s) (offset s)
           (play_start_time s) (playlist s) (current_index s).
Definition set_track_length (v : Q) (s : Player) : Player :=
  mkPlayer (current_file s) (playing s) (paused s) v (offset s)
           (play_start_time s) (playlist s) (current_index s).
Definition set_offset (v : Q) (s : Player) : Player :=
  mkPlayer (current_file s) (playing s) (paused s) (track_length s) v
           (play_start_time s) (playlist s) (current_index s).
Definition set_play_start_time (v : option Q) (s : Player) : Player :=
  mkPlayer (current_file s) (playing s) (paused s) (track_length s) (offset s)
           v (playlist s) (current_index s).
Definition set_playlist (v : list string) (s : Player) : Player :=
  mkPlayer (current_file s) (playing s) (paused s) (track_length s) (offset s)
           (play_start_time s) v (current_index s).
Definition set_current_index (v : Z) (s : Player) : Player :=
  mkPlayer (current_file s) (playing s) (paused s) (track_length s) (offset s)
           (play_start_time s) (playlist s) v.

(** Lifting to worlds, and the two logs. *)
Definition upd (f : Player -> Player) (w : World) : World :=
  mkWorld (f (self w)) (engine w) (ui w).
Definition issue (c : Cmd) (w : World) : World :=
  mkWorld (self w) (engine w ++ [c]) (ui w).
Definition show (u : UiEvent) (w : World) : World :=
  mkWorld (self w) (engine w) (ui w ++ [u]).

(** Sequencing of outcomes, and [try ... except Exception]. *)
Definition and_then (o : outcome) (k : World -> outcome) : outcome :=
  match o with
  | Ok w => k w
  | other => other
  end.

Definition catch (o : outcome) (handler : World -> outcome) : outcome :=
  match o with
  | Raise _ w => handler w
  | other => other
  end.

(** ** The handlers *)

Section Handlers.

Variable e : Env.

(** The position computed alike by [update_progress], [seek] and
    [jump_to_position]:
    [offset] when paused, [offset + (time.time() - play_start_time)]
    otherwise.  [None] stands for the [TypeError] of subtracting
    Python's [None]. *)
Definition position_at (now : Q) (s : Player) : option Q :=
  if paused s then Some (offset s)
  else match play_start_time s with
       | Some t0 => Some (offset s + (now - t0))
       | None => None
       end.

(** The duration probe that follows every successful [music.load]:
    mutagen when it was imported, else [pygame.mixer.Sound] with 0 as
    its fallback.  [None]: the mutagen call raises. *)
Definition probe_length (path : string) : option Q :=
  if use_mutagen e then mp3_length e path
  else match sound_length e path with
       | Some l => Some l
       | None => Some 0
       end.

(** [stop_music] *)
Definition stop_music (w : World) : World :=
  if playing (self w) then
    let w := issue MusicStop w in
    let w := show StatusStopped w in
    let w := upd (set_playing false) w in
    let w := upd (set_paused false) w in
    let w := upd (set_offset 0) w in
    let w := upd (set_play_start_time None) w in
    show (ProgressSet 0) w
  else w.

(** The clamp of [update_progress]:
    [if current_time > track_length: current_time = track_length]. *)
Definition clamp_to_length (len current_time : Q) : Q :=
  if Qlt_bool len current_time then len else current_time.

(** [play_next_song], with the call of [update_progress] that ends its
    [try] block left as the parameter [progress]. *)
Definition play_next_song_with (progress : World -> outcome) (now : Q)
           (w : World) : outcome :=
  match playlist (self w) with
  | [] => Ok w
  | _ :: _ =>
      let n := Z.of_nat (List.length (playlist (self w))) in
      let i := ((current_index (self w) + 1) mod n)%Z in
      let w := upd (set_current_index i) w in
      match nth_error (playlist (self w)) (Z.to_nat i) with
      | None => Raise IndexError w
      | Some path =>
          let w := upd (set_current_file (Some path)) w in
          let body :=
            let w := issue (MusicLoad path) w in
            if music_load e path then
              match probe_length path with
              | None => Raise MutagenError w
              | Some len =>
                  let w := upd (set_track_length len) w in
                  let w := issue (MusicPlay 0) w in
                  if music_play e 0 then
                    let w := upd (set_offset 0) w in
                    let w := upd (set_play_start_time (Some now)) w in
                    let w := upd (set_playing true) w in
                    let w := upd (set_paused false) w in
                    progress w
                  else Raise PygameError w
              end
            else Raise PygameError w in
          (* except Exception: only logging.error *)
          catch body Ok
      end
  end.

(** [update_progress].  [busy] lists what [get_busy()] answers, first
    to this call and then to the calls nested in it through
    [play_next_song]. *)
Fixpoint update_progress (now : Q) (busy : list bool) (w : World)
  : outcome :=
  if playing (self w) && Qlt_bool 0 (track_length (self w)) then
    match position_at now (self w) with
    | None => Raise TypeError w
    | Some current_time =>
        let len := track_length (self w) in
        let current_time := clamp_to_length len current_time in
        let progress := (current_time / len) * 100 in
        let w := show (ProgressSet (Qmin progress 100)) w in
        match current_file (self w) with
        | None => Raise TypeError w        (* os.path.basename(None) *)
        | Some file =>
            let w := show (StatusTime (paused (self w)) file
                                      current_time len) w in
            match busy with
            | [] => Starved
            | b :: busy' =>
                if negb b && negb (paused (self w)) then
                  match playlist (self w) with
                  | _ :: _ =>
                      play_next_song_with (update_progress now busy') now w
                  | [] => Ok (show (ProgressSet 100) (stop_music w))
                  end
                else Ok (show After500 w)
            end
        end
    end
  else Ok w.

(** [play_next_song] *)
Definition play_next_song (now : Q) (busy : list bool) (w : World)
  : outcome :=
  play_next_song_with (update_progress now busy) now w.

(** [play_music] *)
Definition play_music (now : Q) (busy : list bool) (w : World)
  : outcome :=
  match current_file (self w) with
  | Some path =>
      if Path.nonempty path then
        let body :=
          let w := issue (MusicPlay 0) w in
          if music_play e 0 then
            let w := upd (set_offset 0) w in
            let w := upd (set_play_start_time (Some now)) w in
            let w := upd (set_playing true) w in
            let w := upd (set_paused false) w in
            update_progress now busy w
          else Raise PygameError w in
        catch body (fun w => Ok (show (ShowError "Error"%string) w))
      else Ok (show (ShowWarning "No File Selected"%string) w)
  | None => Ok (show (ShowWarning "No File Selected"%string) w)
  end.

(** [toggle_pause] *)
Definition toggle_pause (now : Q) (w : World) : World :=
  if playing (self w) then
    if negb (paused (self w)) then
      let w := issue MusicPause w in
      let w := match play_start_time (self w) with
               | Some t0 => upd (set_offset (offset (self w) + (now - t0))) w
               | None => w
               end in
      let w := upd (set_play_start_time None) w in
      upd (set_paused true) w
    else
      let w := issue MusicUnpause w in
      let w := upd (set_play_start_time (Some now)) w in
      upd (set_paused false) w
  else w.

(** The two tests of [seek] on [new_time], the sum it has computed.
    The comparisons are those of the values; the difference
    [track_length - 1] is exact for every duration from one second up
    to 2^53 seconds. *)
Definition seek_target (len new_time : Q) : Q :=
  if Qlt_bool new_time 0 then 0
  else if Qlt_bool len new_time then len - 1
  else new_time.

(** [seek]; [now] is the clock reading that gives [current_time], and
    [later] the one taken once the mixer has restarted.  The sum
    [current_time + delta] is the machine's. *)
Definition seek (now later : Q) (delta : Q) (w : World) : outcome :=
  if playing (self w) && Qlt_bool 0 (track_length (self w)) then
    match position_at now (self w) with
    | None => Raise TypeError w
    | Some current_time =>
        let new_time :=
          seek_target (track_length (self w))
                      (float_add e current_time delta) in
        let was_paused := paused (self w) in
        let w := issue (MusicPlay new_time) w in
        if music_play e new_time then
          let w := upd (set_offset new_time) w in
          if negb was_paused then
            Ok (upd (set_play_start_time (Some later)) w)
          else
            let w := issue MusicPause w in
            Ok (upd (set_play_start_time None) w)
        else Raise PygameError w
    end
  else Ok w.

(** [jump_to_position]; [x] is [event.x] and [width] is
    [event.widget.winfo_width()], both integers of pixels.  [now] is
    the clock reading of the handler itself; [seek_now] and [seek_later]
    are the two readings of the [seek] it ends in. *)
Definition jump_to_position (now seek_now seek_later : Q) (x width : Z)
           (w : World) : outcome :=
  if playing (self w) && Qlt_bool 0 (track_length (self w)) then
    if (width =? 0)%Z then Raise ZeroDivisionError w
    else
      let fraction := inject_Z x / inject_Z width in
      let new_time := fraction * track_length (self w) in
      match position_at now (self w) with
      | None => Raise TypeError w
      | Some current_time =>
          seek seek_now seek_later (new_time - current_time) w
      end
  else Ok w.

(** [rewind_music] and [fast_forward_music] *)
Definition rewind_music (now later : Q) (w : World) : outcome :=
  seek now later (-5) w.
Definition fast_forward_music (now later : Q) (w : World) : outcome :=
  seek now later 5 w.

(** [load_file]; [file_path] is what the dialog returned, the empty
    string when it was dismissed. *)
Definition load_file (file_path : string) (w : World) : outcome :=
  if Path.nonempty file_path then
    let w := upd (set_playlist []) w in
    let w := upd (set_current_index (-1)) w in
    let w := upd (set_current_file (Some file_path)) w in
    if Path.is_mp3 file_path then
      let body :=
        let w := issue (MusicLoad file_path) w in
        if music_load e file_path then
          match probe_length file_path with
          | None => Raise MutagenError w
          | Some len => Ok (upd (set_track_length len) w)
          end
        else Raise PygameError w in
      catch body (fun w =>
        Ok (upd (set_current_file None) (show (ShowError "Error"%string) w)))
    else Ok (show (ShowWarning "Unsupported File"%string) w)
  else Ok w.

(** [load_folder]; [folder_path] is what the dialog returned and
    [listing] what [os.listdir] returns for it ([None]: it raises). *)
Definition load_folder (now : Q) (busy : list bool) (folder_path : string)
           (listing : option (list string)) (w : World) : outcome :=
  if Path.nonempty folder_path then
    let w := if playing (self w) then stop_music w else w in
    match listing with
    | None => Raise OSError w
    | Some files =>
        let mp3_files :=
          map (Path.join folder_path) (filter Path.is_mp3 files) in
        match mp3_files with
        | [] => Ok (show (ShowWarning "No MP3 Files"%string) w)
        | _ :: _ =>
            let w := upd (set_playlist (shuffle e mp3_files)) w in
            let w := upd (set_current_index 0) w in
            match nth_error (playlist (self w)) 0 with
            | None => Raise IndexError w
            | Some path =>
                let w := upd (set_current_file (Some path)) w in
                let body :=
                  let w := issue (MusicLoad path) w in
                  if music_load e path then
                    match probe_length path with
                    | None => Raise MutagenError w
                    | Some len =>
                        let w := upd (set_track_length len) w in
                        play_music now busy w
                    end
                  else Raise PygameError w in
                catch body (fun w =>
                  Ok (upd (set_current_file None)
                          (show (ShowError "Error"%string) w)))
            end
        end
    end
  else Ok w.

End Handlers.

(** ** Runs of the program *)

(** What the user (or the 500 ms timer, for [Tick]) can ask for. *)
Inductive Action : Type :=
| LoadFile (file_path : string)
| LoadFolder (folder_path : string) (listing : option (list string))
| PlayMusic
| TogglePause
| StopMusic
| Seek (delta : Q)
| JumpTo (x width : Z)
| Rewind
| FastForward
| Next
| Tick.

Record Input : Type := mkInput {
  at_time : Q;
  busy_answers : list bool;
  action : Action
}.

(** One handler call of a run, every clock reading within it being the
    instant of the call. *)
Definition handle (e : Env) (i : Input) (w : World) : outcome :=
  let now := at_time i in
  let busy := busy_answers i in
  match action i with
  | LoadFile p => load_file e p w
  | LoadFolder d l => load_folder e now busy d l w
  | PlayMusic => play_music e now busy w
  | TogglePause => Ok (toggle_pause now w)
  | StopMusic => Ok (stop_music w)
  | Seek d => seek e now now d w
  | JumpTo x width => jump_to_position e now now now x width w
  | Rewind => rewind_music e now now w
  | FastForward => fast_forward_music e now now w
  | Next => play_next_song e now busy w
  | Tick => update_progress e now busy w
  end.

(** Tk's main loop reports an exception that leaves a handler and goes
    on with the attributes as the handler left them. *)
Fixpoint run (e : Env) (inputs : list Input) (w : World) : option World :=
  match inputs with
  | [] => Some w
  | i :: rest =>
      match handle e i w with
      | Ok w' => run e rest w'
      | Raise _ w' => run e rest w'
      | Starved => None
      end
  end.

(** The clock does not run backwards. *)
Fixpoint chronological (inputs : list Input) : Prop :=
  match inputs with
  | [] => True
  | i :: rest =>
      match rest with
      | [] => True
      | j :: _ => at_time i <= at_time j
      end /\ chronological rest
  end.

Definition reachable (e : Env) (w : World) : Prop :=
  exists inputs, chronological inputs /\ run e inputs boot = Some w.

(** The elapsed time [update_progress] derives and shows. *)
Definition elapsed (now : Q) (s : Player) : option Q :=
  option_map (clamp_to_length (track_length s)) (position_at now s).

(** The world an outcome leaves, when the call ended. *)
Definition final (o : outcome) : option World :=
  match o with
  | Ok w => Some w
  | Raise _ w => Some w
  | Starved => None
  end.

(** Consecutive calls of [play_next_song], each at its own instant and
    each with a mixer that is busy once the new track has started; the
    further answers of [get_busy()] are left free. *)
Fixpoint advances (e : Env) (calls : list (Q * list bool)) (w : World)
  : outcome :=
  match calls with
  | [] => Ok w
  | (now, bs) :: rest =>
      and_then (play_next_song e now (true :: bs) w) (advances e rest)
  end.

(** ** The time display *)

(** [f"{n:02d}"]: the decimal digits of [n], with its sign if it is
    negative, filled with a zero from the left when that is a single
    character. *)
Definition two_digits (n : Z) : string :=
  let digits := NilZero.string_of_int (Z.to_int n) in
  if (String.length digits <? 2)%nat then String "0" digits else digits.

(** The two numbers [format_time] prints: [int(seconds // 60)] and
    [int(seconds % 60)]. *)
Definition time_fields (seconds : Q) : Z * Z :=
  let minutes := Qfloor (seconds / 60) in
  let seconds := Qfloor (seconds - 60 * inject_Z minutes) in
  (minutes, seconds).

(** [format_time] *)
Definition format_time (seconds : Q) : string :=
  let (minutes, seconds) := time_fields seconds in
  (two_digits minutes ++ String ":" (two_digits seconds))%string.

(** The shuffle is a shuffle: it only reorders. *)
Definition shuffle_permutes (e : Env) : Prop :=
  forall l, Permutation l (shuffle e l).

(** ** Binary64 sums *)

(** The nearest integer, ties going to the even one. *)
Definition round_half_even (x : Q) : Z :=
  let f := Qfloor x in
  let r := x - inject_Z f in
  if Qlt_bool r (1#2) then f
  else if Qlt_bool (1#2) r then (f + 1)%Z
  else if Z.even f then f else (f + 1)%Z.

(** The binary64 number nearest to [q], ties to even, in the normal
    range: 53 significant bits. *)
Definition binary64 (q : Q) : Q :=
  if Qeq_bool q 0 then 0
  else
    let a := Qabs q in
    let guess := (Z.log2 (Qnum a) - Z.log2 (Zpos (Qden a)))%Z in
    let exponent :=
      if Qle_bool (Qpower 2 guess) a then guess else (guess - 1)%Z in
    let ulp := Qpower 2 (exponent - 52) in
    let m := inject_Z (round_half_even (a / ulp)) * ulp in
    if Qlt_bool q 0 then - m else m.

(** The double nearest 0.1 and the double nearest 5.1. *)
Definition tenth : Q := 3602879701896397 # 36028797018963968.
Definition five_and_a_tenth : Q := 2871044762448691 # 562949953421312.

(** ** Sample collaborators, states and sessions *)

Open Scope string_scope.

(** A collaborator that accepts every call: mutagen is present and
    reports [len] seconds for every file, the shuffle keeps the order,
    and sums are exact. *)
Definition obliging (len : Q) : Env :=
  mkEnv true (fun _ => true) (fun _ => Some len) (fun _ => Some len)
        (fun _ => true) (fun l => l) Qplus.

(** The same, with the sums of binary64 arithmetic. *)
Definition rounding (len : Q) : Env :=
  mkEnv true (fun _ => true) (fun _ => Some len) (fun _ => Some len)
        (fun _ => true) (fun l => l) (fun x y => binary64 (x + y)).

(** The same as [obliging], with a mixer that cannot open the file
    [bad]. *)
Definition choking_on (bad : string) (len : Q) : Env :=
  mkEnv true (fun p => negb (String.eqb p bad)) (fun _ => Some len)
        (fun _ => Some len) (fun _ => true) (fun l => l) Qplus.

(** A paused player five seconds into a ten-second track. *)
Definition paused_at_five : World :=
  mkWorld (mkPlayer (Some "a.mp3") true true 10 5 None [] (-1)) [] [].

(** A paused player a tenth of a second into a track of 5.1 seconds,
    both as doubles. *)
Definition paused_at_tenth : World :=
  mkWorld (mkPlayer (Some "a.mp3") true true five_and_a_tenth tenth None
                    [] (-1)) [] [].

(** A paused player a quarter of a second into a half-second track. *)
Definition paused_in_jingle : World :=
  mkWorld (mkPlayer (Some "j.mp3") true true (1#2) (1#4) None [] (-1)) [] [].

(** A stopped player with a ten-second track loaded. *)
Definition loaded_stopped : World :=
  mkWorld (mkPlayer (Some "a.mp3") false false 10 0 None [] (-1))
          [MusicLoad "a.mp3"] [].

(** Playing since instant 1, with 5 seconds accumulated before. *)
Definition playing_since_one : World :=
  mkWorld (mkPlayer (Some "a.mp3") true false 10 5 (Some 1) [] (-1)) [] [].

(** Playing the first of two songs of a folder. *)
Definition in_playlist : World :=
  mkWorld (mkPlayer (Some "a.mp3") true false 10 5 (Some 1)
                    ["a.mp3"; "b.mp3"] 0) [] [].

(** Load a half-second jingle, press Play, press Fast Forward a tenth
    of a second later. *)
Definition jingle_session : list Input :=
  [ mkInput 0 [] (LoadFile "j.mp3");
    mkInput 0 [true] PlayMusic;
    mkInput (1#10) [] FastForward ].

(** A folder session with the obliging collaborator: load a folder of
    two songs and a text file, pause, seek, resume, move on, tick. *)
Definition folder_session : list Input :=
  [ mkInput 0 [true] (LoadFolder "/music" (Some ["b.txt"; "a.MP3"; "c.mp3"]));
    mkInput 3 [] TogglePause;
    mkInput 5 [] (Seek 4);
    mkInput 6 [] TogglePause;
    mkInput 7 [true] Next;
    mkInput 8 [true] Tick ].

(** The world a session leaves ([boot] if its answers ran out). *)
Definition after (e : Env) (inputs : list Input) : World :=
  match run e inputs boot with
  | Some w => w
  | None => boot
  end.

(** A collaborator without mutagen whose [Sound] cannot measure any
    file. *)
Definition unmeasuring : Env :=
  mkEnv false (fun _ => true) (fun _ => None) (fun _ => None)
        (fun _ => true) (fun l => l) Qplus.

(** A collaborator whose mixer refuses every [play]. *)
Definition mute (len : Q) : Env :=
  mkEnv true (fun _ => true) (fun _ => Some len) (fun _ => Some len)
        (fun _ => false) (fun l => l) Qplus.

(** The transport controls that work within the current track. *)
Definition within_track (a : Action) : bool :=
  match a with
  | TogglePause | StopMusic | Seek _ | JumpTo _ _ | Rewind | FastForward =>
      true
  | LoadFile _ | LoadFolder _ _ | PlayMusic | Next | Tick => false
  end.

(** ** Properties of the states of a run *)

(** A duration that is unknown (0) or of a second and more. *)
Definition long_or_unknown (len : Q) : Prop := len <= 0 \/ 1 <= len.

(** The probes report no other duration. *)
Definition probes_long (e : Env) : Prop :=
  forall path len, probe_length e path = Some len -> long_or_unknown len.

(** At a clock reading [t]: the offset is not negative, the segment
    clock was not started after [t], and the duration is unknown or of a
    second and more. *)
Definition sane (t : Q) (s : Player) : Prop :=
  0 <= offset s /\
  (forall t0, play_start_time s = Some t0 -> t0 <= t) /\
  long_or_unknown (track_length s).

(** A property of the player in which a call ended. *)
Definition holds (P : Player -> Prop) (o : outcome) : Prop :=
  match o with
  | Ok w => P (self w)
  | Raise _ w => P (self w)
  | Starved => True
  end.

(** The index is a position of the playlist, when there is one. *)
Definition indexed (s : Player) : Prop :=
  playlist s <> [] ->
  (0 <= current_index s < Z.of_nat (List.length (playlist s)))%Z.

(** The state right after a start at [now]: nothing accumulated, and
    either playing since [now] or stopped again. *)
Definition restarted (now : Q) (s : Player) : Prop :=
  offset s = 0 /\ paused s = false /\
  ((playing s = true /\ play_start_time s = Some now) \/
   (playing s = false /\ play_start_time s = None)).

(** The flags, the offset and the segment clock agree: a stopped player
    is unpaused with offset 0 and no clock, a paused one has no clock,
    and one that plays unpaused has a clock. *)
Definition coherent (s : Player) : Prop :=
  (playing s = false ->
     paused s = false /\ offset s = 0 /\ play_start_time s = None) /\
  (paused s = true -> play_start_time s = None) /\
  (playing s = true -> paused s = false -> play_start_time s <> None).

(** ** Proof support *)

Lemma Qlt_bool_iff x y : Qlt_bool x y = true <-> x < y.
Proof.
  unfold Qlt_bool. rewrite negb_true_iff. split; intro H.
  - apply Qnot_le_lt. intro L. apply Qle_bool_iff in L. congruence.
  - destruct (Qle_bool y x) eqn:E; [|reflexivity].
    apply Qle_bool_iff in E. exfalso. exact (Qlt_not_le _ _ H E).
Qed.

Lemma Qlt_bool_false x y : Qlt_bool x y = false <-> y <= x.
Proof.
  unfold Qlt_bool. rewrite negb_false_iff. apply Qle_bool_iff.
Qed.


Ltac bool_hyps :=
  repeat match goal with
    | H : Qlt_bool _ _ = true |- _ => apply Qlt_bool_iff in H
    | H : Qlt_bool _ _ = false |- _ => apply Qlt_bool_false in H
    | H : _ && _ = true |- _ => apply andb_true_iff in H; destruct H
    end.

(** [try ... except] keeps what holds at every exit of the body and is
    kept by the handler. *)
Lemma holds_catch P o handler :
  holds P o ->
  (forall w, P (self w) -> holds P (handler w)) ->
  holds P (catch o handler).
Proof. destruct o; cbn; auto. Qed.

Lemma clamp_to_length_le len t : clamp_to_length len t <= len.
Proof.
  unfold clamp_to_length. destruct (Qlt_bool len t) eqn:E; bool_hyps; lra.
Qed.

Lemma clamp_to_length_nonneg len t :
  0 <= len -> 0 <= t -> 0 <= clamp_to_length len t.
Proof.
  unfold clamp_to_length. destruct (Qlt_bool len t); intros; assumption.
Qed.

(** The three cases of [seek_target]. *)
Lemma seek_target_below len t : t < 0 -> seek_target len t = 0.
Proof.
  intro H. unfold seek_target.
  apply Qlt_bool_iff in H. rewrite H. reflexivity.
Qed.

Lemma seek_target_beyond len t :
  0 <= t -> len < t -> seek_target len t = len - 1.
Proof.
  intros H0 H. unfold seek_target.
  apply Qlt_bool_false in H0. apply Qlt_bool_iff in H.
  rewrite H0, H. reflexivity.
Qed.

Lemma seek_target_within len t :
  0 <= t -> t <= len -> seek_target len t = t.
Proof.
  intros H0 H. unfold seek_target.
  apply Qlt_bool_false in H0. apply Qlt_bool_false in H.
  rewrite H0, H. reflexivity.
Qed.

Lemma seek_target_range len t :
  1 <= len -> 0 <= seek_target len t <= len.
Proof.
  intro H. unfold seek_target.
  destruct (Qlt_bool t 0) eqn:E0; [lra|].
  destruct (Qlt_bool len t) eqn:E1; bool_hyps; lra.
Qed.

(** ** Seeking *)

(** C1, as stated, fails: a forward seek of five seconds from 0:05 of a
    ten-second track lands on the duration itself, not before it (the
    test of [seek] is [new_time > track_length]); and in a half-second
    track a forward seek lands on [track_length - 1], which is
    negative. *)
Lemma seek_can_land_on_the_end :
  (exists w',
      seek (obliging 10) 0 0 5 paused_at_five = Ok w' /\
      playing (self paused_at_five) = true /\
      0 < track_length (self w') /\
      ~ offset (self w') < track_length (self w')) /\
  (exists w',
      seek (obliging (1#2)) 0 0 5 paused_in_jingle = Ok w' /\
      0 < track_length (self w') /\
      offset (self w') < 0).
Proof.
  split; eexists; (split; [vm_compute; reflexivity|]).
  - repeat split; vm_compute; congruence.
  - split; vm_compute; reflexivity.
Qed.

(** The same happens through rounding: a tenth of a second into a track
    of 5.1 seconds, the exact sum of the position and 5 is beyond the
    duration, but the sum the machine computes is the duration itself,
    and Fast Forward lands on it. *)
Lemma seek_lands_on_the_end_by_rounding :
  track_length (self paused_at_tenth) < offset (self paused_at_tenth) + 5 /\
  float_add (rounding five_and_a_tenth) (offset (self paused_at_tenth)) 5
    == track_length (self paused_at_tenth) /\
  exists w',
    fast_forward_music (rounding five_and_a_tenth) 0 0 paused_at_tenth
      = Ok w' /\
    offset (self w') == track_length (self w').
Proof.
  split; [vm_compute; reflexivity|].
  split; [vm_compute; reflexivity|].
  eexists. split; [vm_compute; reflexivity|]. vm_compute. reflexivity.
Qed.

(** C1, amended: while the playing flag is set and the duration is at
    least one second, an accepted [seek(delta)] takes the sum
    [elapsed + delta] as the floating-point addition computes it and
    stores in [offset] that sum if it lies in [[0, duration]], exactly 0
    if it is below 0, and [duration - 1] if it is beyond the duration.
    The position after the seek is never negative and never past the
    duration, and it is strictly before the duration unless the computed
    sum is the duration itself.  The mixer is restarted at the stored
    position; a playing player has its segment clock restarted at the
    clock reading taken after that, a paused one is paused again at
    once and has no segment clock; the flags, the duration, the current
    file and the playlist are unchanged. *)
Theorem seek_position_clamped e now later delta w p :
  playing (self w) = true ->
  1 <= track_length (self w) ->
  position_at now (self w) = Some p ->
  music_play e (seek_target (track_length (self w)) (float_add e p delta))
    = true ->
  exists w',
    seek e now later delta w = Ok w' /\
    track_length (self w') = track_length (self w) /\
    (float_add e p delta < 0 -> offset (self w') = 0) /\
    (track_length (self w) < float_add e p delta ->
       offset (self w') = track_length (self w) - 1) /\
    (0 <= float_add e p delta <= track_length (self w) ->
       offset (self w') = float_add e p delta) /\
    0 <= offset (self w') <= track_length (self w) /\
    (~ float_add e p delta == track_length (self w) ->
       offset (self w') < track_length (self w)) /\
    playing (self w') = true /\
    paused (self w') = paused (self w) /\
    play_start_time (self w') =
      (if paused (self w) then None else Some later) /\
    engine w' =
      (engine w
         ++ MusicPlay (offset (self w'))
         :: (if paused (self w) then [MusicPause] else []))%list /\
    current_file (self w') = current_file (self w) /\
    playlist (self w') = playlist (self w) /\
    current_index (self w') = current_index (self w).
Proof.
  intros Hplay Hlen Hpos Hok.
  assert (exists w',
            seek e now later delta w = Ok w' /\
            self w' =
              set_play_start_time
                (if paused (self w) then None else Some later)
                (set_offset
                   (seek_target (track_length (self w))
                                (float_add e p delta)) (self w)) /\
            engine w' =
              (engine w
                 ++ MusicPlay (seek_target (track_length (self w))
                                           (float_add e p delta))
                 :: (if paused (self w) then [MusicPause] else []))%list)
    as (w' & Hrun & Hself & Hengine).
  { unfold seek.
    assert (Qlt_bool 0 (track_length (self w)) = true) as Hlen'
      by (apply Qlt_bool_iff; lra).
    rewrite Hplay, Hlen', Hpos. cbn [andb]. cbn [issue self]. rewrite Hok.
    destruct (paused (self w)); cbn [negb]; eexists;
      (split; [reflexivity|]); cbn [self engine upd issue];
      rewrite <- ?app_assoc; split; reflexivity. }
  exists w'. split; [exact Hrun|]. rewrite Hengine, Hself.
  cbn [track_length offset playing paused play_start_time current_file
       playlist current_index set_play_start_time set_offset].
  set (new_time := float_add e p delta).
  repeat split; try assumption.
  - apply seek_target_below.
  - intro H. apply seek_target_beyond; lra.
  - intros [H0 H1]. apply seek_target_within; assumption.
  - apply seek_target_range; assumption.
  - apply seek_target_range; assumption.
  - intro Hne. unfold seek_target.
    destruct (Qlt_bool new_time 0) eqn:E0; [lra|].
    destruct (Qlt_bool (track_length (self w)) new_time) eqn:E1;
      bool_hyps; [lra|].
    destruct (Qlt_le_dec new_time (track_length (self w))) as [L|G];
      [exact L|].
    exfalso. apply Hne. apply Qle_antisym; assumption.
Qed.

(** Fast Forward a tenth of a second into a track of 5.1 seconds, with
    binary64 sums. *)
Lemma seek_position_clamped_witness :
  let e := rounding five_and_a_tenth in
  let w := paused_at_tenth in
  exists w',
    seek e 2 3 5 w = Ok w' /\
    track_length (self w') = track_length (self w) /\
    (float_add e tenth 5 < 0 -> offset (self w') = 0) /\
    (track_length (self w) < float_add e tenth 5 ->
       offset (self w') = track_length (self w) - 1) /\
    (0 <= float_add e tenth 5 <= track_length (self w) ->
       offset (self w') = float_add e tenth 5) /\
    0 <= offset (self w') <= track_length (self w) /\
    (~ float_add e tenth 5 == track_length (self w) ->
       offset (self w') < track_length (self w)) /\
    playing (self w') = true /\
    paused (self w') = paused (self w) /\
    play_start_time (self w') =
      (if paused (self w) then None else Some 3) /\
    engine w' =
      (engine w
         ++ MusicPlay (offset (self w'))
         :: (if paused (self w) then [MusicPause] else []))%list /\
    current_file (self w') = current_file (self w) /\
    playlist (self w') = playlist (self w) /\
    current_index (self w') = current_index (self w).
Proof.
  apply (seek_position_clamped (rounding five_and_a_tenth) 2 3 5
                               paused_at_tenth tenth).
  - reflexivity.
  - vm_compute. congruence.
  - reflexivity.
  - reflexivity.
Defined.

(** C10: with the playing flag down, [seek] and [jump_to_position]
    return at once: the attributes and both logs are what they were, also
    when a file is loaded and its duration is known and positive. *)
Theorem seek_when_stopped_is_noop e now later now' later' delta x width w :
  playing (self w) = false ->
  seek e now later delta w = Ok w /\
  jump_to_position e now now' later' x width w = Ok w.
Proof.
  intro H. unfold jump_to_position, seek. rewrite H. split; reflexivity.
Qed.

Lemma seek_when_stopped_is_noop_witness :
  current_file (self loaded_stopped) = Some "a.mp3" /\
  0 < track_length (self loaded_stopped) /\
  seek (obliging 10) 3 3 5 loaded_stopped = Ok loaded_stopped /\
  jump_to_position (obliging 10) 3 3 3 40 80 loaded_stopped
    = Ok loaded_stopped.
Proof.
  split; [reflexivity|]. split; [reflexivity|].
  apply (seek_when_stopped_is_noop (obliging 10) 3 3 3 3 5 40 80
                                   loaded_stopped).
  reflexivity.
Defined.

(** ** Pausing *)

(** C8: from a playing state, [toggle_pause] at [t1] stores the elapsed
    time [p] of that moment in [offset], clears the segment clock and
    sets the paused flag; [toggle_pause] at [t2] then clears the flag
    and restarts the clock at [t2] with [offset] untouched, so the
    player is playing again and its elapsed time at the resume is [p]
    (and [p + (t - t2)] at any [t]). *)
Theorem toggle_pause_twice t1 t2 w p :
  playing (self w) = true ->
  paused (self w) = false ->
  position_at t1 (self w) = Some p ->
  let w1 := toggle_pause t1 w in
  let w2 := toggle_pause t2 w1 in
  (playing (self w1) = true /\ paused (self w1) = true /\
   offset (self w1) = p /\ play_start_time (self w1) = None) /\
  (playing (self w2) = true /\ paused (self w2) = false /\
   offset (self w2) = p /\ play_start_time (self w2) = Some t2) /\
  (forall t, position_at t (self w2) = Some (p + (t - t2))) /\
  (exists p2, position_at t2 (self w2) = Some p2 /\ p2 == p) /\
  engine w2 = (engine w ++ [MusicPause; MusicUnpause])%list.
Proof.
  intros Hplay Hrun Hpos. unfold position_at in Hpos. rewrite Hrun in Hpos.
  destruct (play_start_time (self w)) as [t0|] eqn:E0; [|discriminate].
  injection Hpos as <-.
  cbv zeta. unfold toggle_pause. rewrite Hplay, Hrun. cbn.
  rewrite E0. cbn. rewrite ?Hplay. cbn.
  repeat split; try assumption.
  - exists (offset (self w) + (t1 - t0) + (t2 - t2)). split; [reflexivity|].
    ring.
  - rewrite <- app_assoc. reflexivity.
Qed.

Lemma toggle_pause_twice_witness :
  let w1 := toggle_pause 3 playing_since_one in
  let w2 := toggle_pause 8 w1 in
  (playing (self w1) = true /\ paused (self w1) = true /\
   offset (self w1) = 5 + (3 - 1) /\ play_start_time (self w1) = None) /\
  (playing (self w2) = true /\ paused (self w2) = false /\
   offset (self w2) = 5 + (3 - 1) /\ play_start_time (self w2) = Some 8) /\
  (forall t, position_at t (self w2) = Some (5 + (3 - 1) + (t - 8))) /\
  (exists p2, position_at 8 (self w2) = Some p2 /\ p2 == 5 + (3 - 1)) /\
  engine w2 = (engine playing_since_one ++ [MusicPause; MusicUnpause])%list.
Proof.
  apply (toggle_pause_twice 3 8 playing_since_one (5 + (3 - 1)));
    reflexivity.
Defined.

(** ** The periodic update *)

(** C3, as stated, fails: when the mixer is no longer busy on a playing,
    unpaused track and there is no playlist, [update_progress] calls
    [stop_music]: the mixer is told to stop and the playing flag
    drops. *)
Lemma update_progress_can_stop :
  exists w',
    update_progress (obliging 10) 12 [false] playing_since_one = Ok w' /\
    engine w' = (engine playing_since_one ++ [MusicStop])%list /\
    playing (self playing_since_one) = true /\
    playing (self w') = false.
Proof.
  eexists. split; [vm_compute; reflexivity|]. repeat split.
Qed.

(** C3, amended: [update_progress] makes no call on the mixer and
    changes no attribute of the player whenever the playing flag is
    down, or the duration is not positive, or the mixer answers that it
    is still busy, or playback is paused; it only shows the elapsed
    time.  (In the remaining case, a playing and unpaused track that the
    mixer has finished, it stops or moves to the next song.) *)
Theorem update_progress_quiet e now b bs w :
  playing (self w) = false \/ track_length (self w) <= 0 \/
  b = true \/ paused (self w) = true ->
  exists w',
    final (update_progress e now (b :: bs) w) = Some w' /\
    self w' = self w /\ engine w' = engine w.
Proof.
  intro H. cbn [update_progress].
  destruct (playing (self w) && Qlt_bool 0 (track_length (self w))) eqn:G.
  2: { exists w. repeat split. }
  bool_hyps.
  destruct (position_at now (self w)) as [p|].
  2: { exists w. repeat split. }
  cbn [show self]. destruct (current_file (self w)) as [f|].
  2: { eexists. split; [reflexivity|]. split; reflexivity. }
  destruct H as [H|[H|[H|H]]]; [congruence|lra| |].
  - subst b. cbn. eexists. repeat split.
  - rewrite H, andb_false_r. cbn. eexists. repeat split.
Qed.

Lemma update_progress_quiet_witness :
  exists w',
    final (update_progress (obliging 10) 4 [true] playing_since_one)
      = Some w' /\
    self w' = self playing_since_one /\
    engine w' = engine playing_since_one.
Proof.
  apply (update_progress_quiet (obliging 10) 4 true [] playing_since_one).
  right. right. left. reflexivity.
Defined.

(** The remaining case without a playlist: the player stops. *)
Lemma update_progress_finished_single e now bs w p f :
  playing (self w) = true ->
  0 < track_length (self w) ->
  paused (self w) = false ->
  position_at now (self w) = Some p ->
  current_file (self w) = Some f ->
  playlist (self w) = [] ->
  exists w',
    update_progress e now (false :: bs) w = Ok w' /\
    engine w' = (engine w ++ [MusicStop])%list /\
    playing (self w') = false /\ paused (self w') = false /\
    offset (self w') = 0 /\ play_start_time (self w') = None.
Proof.
  intros Hplay Hlen Hrun Hpos Hfile Hlist. cbn [update_progress].
  apply Qlt_bool_iff in Hlen. rewrite Hplay, Hlen, Hpos. cbn.
  rewrite Hfile, Hrun, Hlist. cbn. unfold stop_music. cbn. rewrite Hplay.
  eexists. split; [reflexivity|]. repeat split.
Qed.

(** ** Loading *)

(** C4, as stated, fails: [load_folder] stops the playback before it
    looks into the folder, so a playing player is stopped although the
    folder holds no MP3 file. *)
Lemma load_folder_without_mp3_stops :
  exists w',
    load_folder (obliging 10) 7 [] "/music" (Some ["notes.txt"]) in_playlist
      = Ok w' /\
    playing (self in_playlist) = true /\
    playing (self w') = false /\
    offset (self in_playlist) = 5 /\ offset (self w') = 0 /\
    play_start_time (self in_playlist) = Some 1 /\
    play_start_time (self w') = None.
Proof.
  eexists. split; [vm_compute; reflexivity|]. repeat split.
Qed.

(** C4, amended: when the chosen folder holds no file ending in
    [.mp3], [load_folder] warns "No MP3 Files" and leaves the current
    file, the playlist, the index and the duration as they were; a
    stopped player is left untouched altogether, while a playing or
    paused one has been stopped first: both flags down, offset 0,
    segment clock cleared, and [stop] sent to the mixer. *)
Theorem load_folder_without_mp3 e now busy folder files w :
  Path.nonempty folder = true ->
  filter Path.is_mp3 files = [] ->
  exists w',
    load_folder e now busy folder (Some files) w = Ok w' /\
    (exists seen, ui w' = (seen ++ [ShowWarning "No MP3 Files"])%list) /\
    current_file (self w') = current_file (self w) /\
    playlist (self w') = playlist (self w) /\
    current_index (self w') = current_index (self w) /\
    track_length (self w') = track_length (self w) /\
    (playing (self w) = false ->
       self w' = self w /\ engine w' = engine w) /\
    (playing (self w) = true ->
       playing (self w') = false /\ paused (self w') = false /\
       offset (self w') = 0 /\ play_start_time (self w') = None /\
       engine w' = (engine w ++ [MusicStop])%list).
Proof.
  intros Hdir Hnone. unfold load_folder. rewrite Hdir, Hnone. cbn [map].
  unfold stop_music.
  destruct (playing (self w)) eqn:Hplay.
  - eexists. split; [reflexivity|]. cbn.
    split; [eexists; reflexivity|]. repeat split; congruence.
  - eexists. split; [reflexivity|]. cbn.
    split; [eexists; reflexivity|]. repeat split; congruence.
Qed.

Lemma load_folder_without_mp3_witness :
  exists w',
    load_folder (obliging 10) 7 [] "/music" (Some ["notes.txt"]) in_playlist
      = Ok w' /\
    (exists seen, ui w' = (seen ++ [ShowWarning "No MP3 Files"])%list) /\
    current_file (self w') = current_file (self in_playlist) /\
    playlist (self w') = playlist (self in_playlist) /\
    current_index (self w') = current_index (self in_playlist) /\
    track_length (self w') = track_length (self in_playlist) /\
    (playing (self in_playlist) = false ->
       self w' = self in_playlist /\ engine w' = engine in_playlist) /\
    (playing (self in_playlist) = true ->
       playing (self w') = false /\ paused (self w') = false /\
       offset (self w') = 0 /\ play_start_time (self w') = None /\
       engine w' = (engine in_playlist ++ [MusicStop])%list).
Proof.
  apply (load_folder_without_mp3 (obliging 10) 7 [] "/music"
                                 ["notes.txt"] in_playlist);
    reflexivity.
Defined.




(** ** A file the mixer cannot open *)

(** [load_file] clears the current file when the mixer or mutagen
    raises. *)
Lemma load_file_load_error e path w :
  Path.nonempty path = true ->
  Path.is_mp3 path = true ->
  music_load e path = false \/ probe_length e path = None ->
  exists w',
    load_file e path w = Ok w' /\ current_file (self w') = None.
Proof.
  intros Hpath Hext Hfail. unfold load_file. rewrite Hpath. cbn.
  rewrite Hext.
  destruct (music_load e path) eqn:Hload.
  - destruct Hfail as [Hfail|Hfail]; [discriminate|]. rewrite Hfail.
    eexists. split; reflexivity.
  - eexists. split; reflexivity.
Qed.

(** So does [load_folder], for the first file of the new playlist. *)
Lemma load_folder_load_error e now busy folder files w path rest :
  Path.nonempty folder = true ->
  filter Path.is_mp3 files <> [] ->
  shuffle e (map (Path.join folder) (filter Path.is_mp3 files))
    = path :: rest ->
  music_load e path = false \/ probe_length e path = None ->
  exists w',
    load_folder e now busy folder (Some files) w = Ok w' /\
    current_file (self w') = None.
Proof.
  intros Hdir Hsome Hshuf Hfail. unfold load_folder. rewrite Hdir.
  destruct (filter Path.is_mp3 files) as [|m ms]; [congruence|].
  cbn [map] in *. cbn. rewrite Hshuf. cbn.
  destruct (music_load e path) eqn:Hload.
  - destruct Hfail as [Hfail|Hfail]; [discriminate|]. rewrite Hfail.
    eexists. split; reflexivity.
  - eexists. split; reflexivity.
Qed.

(** [play_next_song] does not: its handler only logs. *)
Lemma play_next_song_load_error e now busy w path :
  playlist (self w) <> [] ->
  nth_error (playlist (self w))
            (Z.to_nat ((current_index (self w) + 1)
                       mod Z.of_nat (List.length (playlist (self w)))))
    = Some path ->
  music_load e path = false ->
  exists w',
    play_next_song e now busy w = Ok w' /\
    current_file (self w') = Some path /\
    engine w' = (engine w ++ [MusicLoad path])%list.
Proof.
  intros Hlist Hnth Hload. unfold play_next_song, play_next_song_with.
  destruct (playlist (self w)) as [|a l] eqn:El; [congruence|].
  cbn [upd self playlist set_current_index]. rewrite El, Hnth.
  cbn. rewrite Hload. cbn. eexists. repeat split.
Qed.

(** C6 fails for [play_next_song]: with the first of two songs playing
    and a mixer that cannot open the second, the call leaves
    [current_file] on the file that failed to load, where [load_file]
    and [load_folder] set it to [None]. *)
Theorem play_next_song_keeps_unopened_file :
  exists w',
    play_next_song (choking_on "b.mp3" 10) 7 [true] in_playlist = Ok w' /\
    music_load (choking_on "b.mp3" 10) "b.mp3" = false /\
    engine w' = [MusicLoad "b.mp3"] /\
    current_file (self w') = Some "b.mp3" /\
    current_file (self w') <> None /\
    playing (self w') = true.
Proof.
  eexists. split; [vm_compute; reflexivity|].
  repeat split. discriminate.
Qed.

(** ** Starting playback *)

(** [update_progress] right after a start, with a mixer that is busy
    with the track it was just given (or with no duration to show):
    nothing but the display changes. *)
Lemma update_progress_after_start e now b bs w file :
  paused (self w) = false ->
  play_start_time (self w) = Some now ->
  current_file (self w) = Some file ->
  track_length (self w) <= 0 \/ b = true ->
  exists w',
    update_progress e now (b :: bs) w = Ok w' /\
    self w' = self w /\ engine w' = engine w.
Proof.
  intros Hrun Hclock Hfile Hbusy. cbn [update_progress].
  destruct (playing (self w) && Qlt_bool 0 (track_length (self w))) eqn:G.
  2: { exists w. repeat split. }
  bool_hyps. unfold position_at. rewrite Hrun, Hclock. cbn.
  rewrite Hfile, Hrun.
  destruct Hbusy as [Hzero|Hb]; [lra|]. subst b. cbn.
  eexists. repeat split.
Qed.

(** C7: with a file loaded and a mixer that accepts the call (and is
    then busy with the track), [play_music] sets [offset] to 0 and the
    segment clock to the current instant and raises the playing flag,
    whatever offset, clock and flags it found; the elapsed time at that
    instant is 0. *)
Theorem play_music_restarts e now b bs w path :
  current_file (self w) = Some path ->
  Path.nonempty path = true ->
  music_play e 0 = true ->
  track_length (self w) <= 0 \/ b = true ->
  exists w',
    play_music e now (b :: bs) w = Ok w' /\
    offset (self w') = 0 /\
    play_start_time (self w') = Some now /\
    playing (self w') = true /\
    paused (self w') = false /\
    (exists p, position_at now (self w') = Some p /\ p == 0) /\
    current_file (self w') = Some path /\
    track_length (self w') = track_length (self w) /\
    engine w' = (engine w ++ [MusicPlay 0])%list.
Proof.
  intros Hfile Hpath Hok Hbusy. unfold play_music.
  rewrite Hfile, Hpath, Hok.
  set (w1 := upd (set_paused false) _).
  destruct (update_progress_after_start e now b bs w1 path)
    as (w' & Hrun & Hself & Hengine); try reflexivity.
  - cbn. exact Hfile.
  - cbn. exact Hbusy.
  - rewrite Hrun. cbn [catch]. exists w'. split; [reflexivity|].
    rewrite Hself, Hengine. unfold position_at. cbn.
    repeat split; try assumption.
    exists (0 + (now - now)). split; [reflexivity|ring].
Qed.

(** Paused at 0:05 of a ten-second track, with stale counters. *)
Lemma play_music_restarts_witness :
  exists w',
    play_music (obliging 10) 42 [true] paused_at_five = Ok w' /\
    offset (self w') = 0 /\
    play_start_time (self w') = Some 42 /\
    playing (self w') = true /\
    paused (self w') = false /\
    (exists p, position_at 42 (self w') = Some p /\ p == 0) /\
    current_file (self w') = Some "a.mp3" /\
    track_length (self w') = track_length (self paused_at_five) /\
    engine w' = (engine paused_at_five ++ [MusicPlay 0])%list.
Proof.
  apply (play_music_restarts (obliging 10) 42 true [] paused_at_five "a.mp3").
  - reflexivity.
  - reflexivity.
  - reflexivity.
  - right. reflexivity.
Defined.

(** Whatever the mixer answers to [get_busy()], the update that ends
    [play_music] keeps the offset at 0: it leaves the player playing
    since [now], or stopped, or started on the next song at [now]. *)
Lemma stop_music_restarted now w :
  restarted now (self w) -> restarted now (self (stop_music w)).
Proof.
  intro H. unfold stop_music. destruct (playing (self w)); [|exact H].
  unfold restarted. cbn. auto.
Qed.

Lemma play_next_song_with_restarted e progress now w :
  (forall w', restarted now (self w') -> holds (restarted now) (progress w')) ->
  restarted now (self w) ->
  holds (restarted now) (play_next_song_with e progress now w).
Proof.
  intros Hprogress H. unfold play_next_song_with.
  destruct (playlist (self w)) as [|a l]; [exact H|].
  cbn [upd self set_current_index playlist].
  destruct (nth_error _ _) as [path|]; [|exact H].
  apply holds_catch; [|intros w' Hw'; exact Hw'].
  cbn [upd self set_current_file issue].
  destruct (music_load e path); [|exact H].
  destruct (probe_length e path) as [len|]; [|exact H].
  cbn [upd self set_track_length issue].
  destruct (music_play e 0); [|exact H].
  apply Hprogress. unfold restarted. cbn. auto.
Qed.

Lemma update_progress_restarted e now busy : forall w,
  restarted now (self w) ->
  holds (restarted now) (update_progress e now busy w).
Proof.
  induction busy as [|b busy IH]; intros w H; cbn [update_progress];
    (destruct (playing (self w) && Qlt_bool 0 (track_length (self w)));
       [|exact H]);
    (destruct (position_at now (self w)); [|exact H]);
    cbn [show self];
    (destruct (current_file (self w)); [|exact H]).
  - exact I.
  - destruct (negb b && negb (paused (self w))); [|exact H].
    destruct (playlist (self w)) as [|a l] eqn:El.
    + cbn [holds show self]. apply stop_music_restarted. exact H.
    + apply play_next_song_with_restarted; [exact IH|exact H].
Qed.

Lemma play_music_restarted e now busy w path :
  current_file (self w) = Some path ->
  Path.nonempty path = true ->
  music_play e 0 = true ->
  holds (restarted now) (play_music e now busy w).
Proof.
  intros Hfile Hpath Hok. unfold play_music. rewrite Hfile, Hpath, Hok.
  apply holds_catch; [|intros w' Hw'; exact Hw'].
  apply update_progress_restarted. unfold restarted. cbn. auto.
Qed.

Lemma restarted_position now s :
  restarted now s -> playing s = true ->
  exists p, position_at now s = Some p /\ p == 0.
Proof.
  intros (Hoff & Hrun & [[_ Hclock]|[Hstop _]]) Hplay; [|congruence].
  unfold position_at. rewrite Hrun, Hclock, Hoff.
  exists (0 + (now - now)). split; [reflexivity|ring].
Qed.

(** ** Moving through the playlist *)

(** The index [play_next_song] computes is a position of the list. *)
Lemma next_index_in_range (A : Type) (l : list A) (i : Z) :
  l <> [] ->
  exists x,
    nth_error l (Z.to_nat ((i + 1) mod Z.of_nat (List.length l))) = Some x.
Proof.
  intro Hl.
  assert (0 < Z.of_nat (List.length l))%Z as Hpos.
  { destruct l; [congruence|]. cbn [List.length]. lia. }
  pose proof (Z.mod_pos_bound (i + 1) _ Hpos) as Hb.
  destruct (nth_error l (Z.to_nat ((i + 1) mod Z.of_nat (List.length l))))
    as [x|] eqn:E.
  - exists x. reflexivity.
  - apply nth_error_None in E. lia.
Qed.

(** One call of [play_next_song] with a mixer that is busy once it has
    started the new track. *)
Lemma play_next_song_step e now bs w :
  playlist (self w) <> [] ->
  let n := Z.of_nat (List.length (playlist (self w))) in
  let i' := ((current_index (self w) + 1) mod n)%Z in
  exists w',
    play_next_song e now (true :: bs) w = Ok w' /\
    current_index (self w') = i' /\
    playlist (self w') = playlist (self w) /\
    current_file (self w') = nth_error (playlist (self w)) (Z.to_nat i').
Proof.
  intros Hlist n i'.
  destruct (next_index_in_range _ (playlist (self w))
                                (current_index (self w)) Hlist)
    as (path & Hnth).
  fold n in Hnth. fold i' in Hnth.
  unfold play_next_song, play_next_song_with.
  destruct (playlist (self w)) as [|a l] eqn:El; [congruence|].
  cbn [upd self playlist set_current_index]. rewrite El.
  fold n. fold i'. rewrite Hnth.
  cbn [upd self set_current_file issue engine ui].
  destruct (music_load e path) eqn:Hload.
  2: { cbn. eexists. repeat split; cbn; auto. }
  destruct (probe_length e path) as [len|] eqn:Hprobe.
  2: { cbn. eexists. repeat split; cbn; auto. }
  cbn [upd self set_track_length issue engine ui].
  destruct (music_play e 0) eqn:Hplay.
  2: { cbn. eexists. repeat split; cbn; auto. }
  match goal with
  | |- context [update_progress e now (true :: bs) ?w1] =>
      destruct (update_progress_after_start e now true bs w1 path)
        as (w' & Hrun & Hself & _);
      [reflexivity | reflexivity | reflexivity | right; reflexivity |]
  end.
  rewrite Hrun. cbn [catch]. exists w'. split; [reflexivity|].
  rewrite Hself. cbn. repeat split; auto.
Qed.

Lemma advances_index e calls : forall c w,
  playlist (self w) <> [] ->
  let n := Z.of_nat (List.length (playlist (self w))) in
  exists w',
    advances e (c :: calls) w = Ok w' /\
    playlist (self w') = playlist (self w) /\
    current_index (self w') =
      ((current_index (self w) + 1 + Z.of_nat (List.length calls)) mod n)%Z.
Proof.
  induction calls as [|c' calls IH]; intros [now bs] w Hlist n.
  - destruct (play_next_song_step e now bs w Hlist)
      as (w' & Hrun & Hidx & Hpl & _).
    exists w'. cbn [advances]. rewrite Hrun. cbn.
    repeat split; auto. rewrite Hidx. fold n. f_equal. lia.
  - destruct (play_next_song_step e now bs w Hlist)
      as (w1 & Hrun & Hidx & Hpl & _).
    assert (playlist (self w1) <> []) as Hlist1 by congruence.
    destruct (IH c' w1 Hlist1) as (w' & Hrest & Hpl' & Hidx').
    exists w'. cbn [advances] in *. rewrite Hrun. cbn [and_then].
    split; [exact Hrest|]. split; [congruence|].
    rewrite Hidx', Hidx, Hpl. fold n. cbn [List.length].
    assert (0 < n)%Z as Hpos.
    { subst n. destruct (playlist (self w)); [congruence|].
      cbn [List.length]. lia. }
    rewrite <- Z.add_assoc, Z.add_mod_idemp_l by lia. f_equal. lia.
Qed.

(** C9: on a playlist of [N] songs, [play_next_song] moves the index
    [i] to [(i + 1) mod N] and makes the song at that index the current
    file (the mixer being busy once it has started the song, so that
    the update that ends the call does not move on again); [N] such
    calls in a row, from an index of the list, lead back to it. *)
Theorem play_next_song_cycles e w :
  playlist (self w) <> [] ->
  let N := List.length (playlist (self w)) in
  let i := current_index (self w) in
  (forall now bs,
     exists w',
       play_next_song e now (true :: bs) w = Ok w' /\
       current_index (self w') = ((i + 1) mod Z.of_nat N)%Z /\
       current_file (self w') =
         nth_error (playlist (self w))
                   (Z.to_nat ((i + 1) mod Z.of_nat N)) /\
       current_file (self w') <> None /\
       playlist (self w') = playlist (self w)) /\
  (forall calls,
     List.length calls = N ->
     (0 <= i < Z.of_nat N)%Z ->
     exists w',
       advances e calls w = Ok w' /\
       current_index (self w') = i /\
       playlist (self w') = playlist (self w)).
Proof.
  intros Hlist N i. subst N i. split.
  - intros now bs.
    destruct (play_next_song_step e now bs w Hlist)
      as (w' & Hrun & Hidx & Hpl & Hfile).
    cbv zeta in *.
    exists w'. repeat split; auto.
    rewrite Hfile.
    destruct (next_index_in_range _ (playlist (self w))
                                  (current_index (self w)) Hlist)
      as (x & Hx).
    rewrite Hx. discriminate.
  - intros calls Hlen Hi.
    destruct calls as [|c calls].
    { exfalso. destruct (playlist (self w)); [congruence|]. discriminate. }
    destruct (advances_index e calls c w Hlist) as (w' & Hrun & Hpl & Hidx).
    cbv zeta in *.
    exists w'. repeat split; auto.
    rewrite Hidx. cbn [List.length] in Hlen.
    replace (current_index (self w) + 1 + Z.of_nat (List.length calls))%Z
      with (current_index (self w)
            + 1 * Z.of_nat (List.length (playlist (self w))))%Z by lia.
    rewrite Z.mod_add by lia. apply Z.mod_small. exact Hi.
Qed.

Lemma play_next_song_cycles_witness :
  (exists w',
     play_next_song (obliging 10) 1 [true] in_playlist = Ok w' /\
     current_index (self w') = ((0 + 1) mod Z.of_nat 2)%Z /\
     current_file (self w') =
       nth_error ["a.mp3"; "b.mp3"] (Z.to_nat ((0 + 1) mod Z.of_nat 2)) /\
     current_file (self w') <> None /\
     playlist (self w') = ["a.mp3"; "b.mp3"]) /\
  (exists w',
     advances (obliging 10) [(1, []); (2, [false])] in_playlist = Ok w' /\
     current_index (self w') = 0%Z /\
     playlist (self w') = ["a.mp3"; "b.mp3"]).
Proof.
  destruct (play_next_song_cycles (obliging 10) in_playlist) as [Hstep Hcycle].
  - discriminate.
  - split.
    + exact (Hstep 1 []).
    + apply (Hcycle [(1, []); (2, [false])]).
      * reflexivity.
      * split; [apply Z.le_refl | reflexivity].
Defined.

(** *** The index along a run

    Whenever there is a playlist, the index is one of its positions:
    the start indices of the cycle above are those of every state the
    program can reach. *)

Ltac same_list H := unfold indexed in *; cbn in *; exact H.

Lemma stop_music_indexed w : indexed (self w) -> indexed (self (stop_music w)).
Proof.
  intro H. unfold stop_music. destruct (playing (self w)); same_list H.
Qed.

Lemma toggle_pause_indexed now w :
  indexed (self w) -> indexed (self (toggle_pause now w)).
Proof.
  intro H. unfold toggle_pause.
  destruct (playing (self w)); [|exact H].
  destruct (paused (self w)); cbn [negb]; [same_list H|].
  cbn [issue self]. destruct (play_start_time (self w)); same_list H.
Qed.

Lemma seek_indexed e now later delta w :
  indexed (self w) -> holds indexed (seek e now later delta w).
Proof.
  intro H. unfold seek.
  destruct (playing (self w) && Qlt_bool 0 (track_length (self w)));
    [|exact H].
  destruct (position_at now (self w)); [|exact H].
  cbn [issue self]. destruct (music_play e _); [|exact H].
  destruct (paused (self w)); cbn [negb holds]; same_list H.
Qed.

Lemma jump_to_position_indexed e now now' later x width w :
  indexed (self w) -> holds indexed (jump_to_position e now now' later x width w).
Proof.
  intro H. unfold jump_to_position.
  destruct (playing (self w) && Qlt_bool 0 (track_length (self w)));
    [|exact H].
  destruct (width =? 0)%Z; [exact H|].
  destruct (position_at now (self w)); [|exact H].
  apply seek_indexed. exact H.
Qed.

Lemma play_next_song_with_indexed e progress now w :
  (forall w', indexed (self w') -> holds indexed (progress w')) ->
  indexed (self w) ->
  holds indexed (play_next_song_with e progress now w).
Proof.
  intros Hprogress H. unfold play_next_song_with.
  destruct (playlist (self w)) as [|a l] eqn:El; [exact H|].
  set (i := ((current_index (self w) + 1)
             mod Z.of_nat (List.length (a :: l)))%Z).
  assert (indexed (self (upd (set_current_index i) w))) as Hi.
  { unfold indexed. cbn. rewrite El. intros _.
    apply Z.mod_pos_bound. cbn [List.length]. lia. }
  cbn [upd self set_current_index playlist]. rewrite El.
  destruct (nth_error _ _) as [path|]; [|exact Hi].
  apply holds_catch; [|intros w' Hw'; exact Hw'].
  cbn [upd self set_current_file issue].
  destruct (music_load e path); [|same_list Hi].
  destruct (probe_length e path) as [len|]; [|same_list Hi].
  cbn [upd self set_track_length issue].
  destruct (music_play e 0); [|same_list Hi].
  apply Hprogress. same_list Hi.
Qed.

Lemma update_progress_indexed e now busy : forall w,
  indexed (self w) -> holds indexed (update_progress e now busy w).
Proof.
  induction busy as [|b busy IH]; intros w H; cbn [update_progress];
    (destruct (playing (self w) && Qlt_bool 0 (track_length (self w)));
       [|exact H]);
    (destruct (position_at now (self w)); [|exact H]);
    cbn [show self];
    (destruct (current_file (self w)); [|exact H]).
  - exact I.
  - destruct (negb b && negb (paused (self w))); [|exact H].
    destruct (playlist (self w)) as [|a l] eqn:El.
    + cbn [holds show self]. apply stop_music_indexed. exact H.
    + apply play_next_song_with_indexed; [exact IH|exact H].
Qed.

Lemma play_music_indexed e now busy w :
  indexed (self w) -> holds indexed (play_music e now busy w).
Proof.
  intro H. unfold play_music.
  destruct (current_file (self w)) as [path|]; [|exact H].
  destruct (Path.nonempty path); [|exact H].
  apply holds_catch; [|intros w' Hw'; exact Hw'].
  cbn [issue self]. destruct (music_play e 0); [|exact H].
  apply update_progress_indexed. same_list H.
Qed.

Lemma load_file_indexed e file_path w :
  indexed (self w) -> holds indexed (load_file e file_path w).
Proof.
  intro H. unfold load_file.
  destruct (Path.nonempty file_path); [|exact H].
  assert (forall s, playlist s = [] -> indexed s) as Hempty.
  { intros s E C. congruence. }
  destruct (Path.is_mp3 file_path); [|apply Hempty; reflexivity].
  apply holds_catch; [|intros w' Hw'; same_list Hw'].
  cbn [upd self issue].
  destruct (music_load e file_path); [|apply Hempty; reflexivity].
  destruct (probe_length e file_path); apply Hempty; reflexivity.
Qed.

Lemma load_folder_indexed e now busy folder listing w :
  indexed (self w) -> holds indexed (load_folder e now busy folder listing w).
Proof.
  intro H. unfold load_folder.
  destruct (Path.nonempty folder); [|exact H].
  assert (indexed (self (if playing (self w) then stop_music w else w)))
    as H'.
  { destruct (playing (self w)); [apply stop_music_indexed|]; exact H. }
  destruct listing as [files|]; [|exact H'].
  destruct (map _ _) as [|m ms]; [exact H'|].
  set (w0 := if playing (self w) then stop_music w else w) in *.
  assert (indexed (self (upd (set_current_index 0)
                             (upd (set_playlist (shuffle e (m :: ms))) w0))))
    as H0.
  { unfold indexed. cbn. destruct (shuffle e (m :: ms)); [congruence|].
    intros _. cbn [List.length]. lia. }
  cbn [upd self set_playlist set_current_index playlist].
  destruct (nth_error _ 0) as [path|]; [|exact H0].
  apply holds_catch; [|intros w' Hw'; same_list Hw'].
  cbn [upd self issue]. destruct (music_load e path); [|same_list H0].
  destruct (probe_length e path) as [len|]; [|same_list H0].
  apply play_music_indexed. same_list H0.
Qed.

Lemma handle_indexed e i w :
  indexed (self w) -> holds indexed (handle e i w).
Proof.
  intro H. unfold handle. destruct (action i).
  - apply load_file_indexed. exact H.
  - apply load_folder_indexed. exact H.
  - apply play_music_indexed. exact H.
  - apply toggle_pause_indexed. exact H.
  - apply stop_music_indexed. exact H.
  - apply seek_indexed. exact H.
  - apply jump_to_position_indexed. exact H.
  - apply seek_indexed. exact H.
  - apply seek_indexed. exact H.
  - apply play_next_song_with_indexed; [|exact H].
    intros w' Hw'. apply update_progress_indexed. exact Hw'.
  - apply update_progress_indexed. exact H.
Qed.

(** X20: in every state a run reaches from the initial one, whatever
    the collaborators answer, a non-empty playlist comes with an index
    that is one of its positions: [playlist[current_index]] never fails
    and never counts from the end of the list. *)
Lemma reachable_indexed e w : reachable e w -> indexed (self w).
Proof.
  intros (inputs & _ & Hrun).
  assert (indexed (self boot)) as H0 by (intro C; cbn in C; congruence).
  revert Hrun H0. generalize boot as w0.
  induction inputs as [|i rest IH]; intros w0 Hrun H0.
  - injection Hrun as <-. exact H0.
  - cbn [run] in Hrun. pose proof (handle_indexed e i w0 H0) as Hstep.
    destruct (handle e i w0) as [w1|x w1|]; [| |discriminate];
      exact (IH w1 Hrun Hstep).
Qed.

(** ** The bounds of the elapsed time *)

(** What [update_progress] shows is never beyond the duration. *)
Lemma elapsed_le_length now s q :
  elapsed now s = Some q -> q <= track_length s.
Proof.
  unfold elapsed. destruct (position_at now s) as [p|]; [|discriminate].
  cbn. intros [= <-]. apply clamp_to_length_le.
Qed.

(** [update_progress] shows [elapsed]. *)
Lemma update_progress_shows e now bs w q file :
  playing (self w) = true ->
  0 < track_length (self w) ->
  current_file (self w) = Some file ->
  elapsed now (self w) = Some q ->
  exists w',
    update_progress e now (true :: bs) w = Ok w' /\
    In (StatusTime (paused (self w)) file q (track_length (self w))) (ui w').
Proof.
  intros Hplay Hlen Hfile Hq. unfold elapsed in Hq. cbn [update_progress].
  apply Qlt_bool_iff in Hlen. rewrite Hplay, Hlen. cbn [andb].
  destruct (position_at now (self w)) as [p|]; [|discriminate].
  cbn in Hq. injection Hq as <-. cbn. rewrite Hfile. cbn.
  eexists. split; [reflexivity|]. cbn.
  rewrite !in_app_iff. left. right. left. reflexivity.
Qed.

(** C2 fails in a reachable state: after the session above the duration
    is known and positive and the player is playing, the forward seek
    has stored [track_length - 1], a negative offset, and the next
    update, two tenths of a second later, derives and shows a negative
    elapsed time. *)
Theorem elapsed_negative_after_fast_forward :
  exists w q,
    run (obliging (1#2)) jingle_session boot = Some w /\
    chronological jingle_session /\
    reachable (obliging (1#2)) w /\
    playing (self w) = true /\
    0 < track_length (self w) /\
    offset (self w) < 0 /\
    elapsed (3#10) (self w) = Some q /\
    q < 0 /\
    exists w',
      update_progress (obliging (1#2)) (3#10) [true] w = Ok w' /\
      In (StatusTime false "j.mp3" q (track_length (self w))) (ui w').
Proof.
  assert (chronological jingle_session) as Hchron.
  { cbn. repeat split; vm_compute; congruence. }
  eexists. eexists.
  split; [vm_compute; reflexivity|].
  split; [exact Hchron|].
  split.
  { exists jingle_session. split; [exact Hchron|]. vm_compute. reflexivity. }
  split; [reflexivity|].
  split; [reflexivity|].
  split; [reflexivity|].
  split; [vm_compute; reflexivity|].
  split; [reflexivity|].
  eexists. split; [vm_compute; reflexivity|].
  cbn. tauto.
Qed.

(** *** Tracks of a second and more

    The lower bound is lost only through tracks shorter than a second.
    When every duration the probes report is either 0 ("unknown") or at
    least 1, the offset stays non-negative along every run in which the
    clock does not run backwards, and the elapsed time shown lies
    between 0 and the duration. *)

Ltac sane_split :=
  unfold sane in *; cbn;
  repeat match goal with
    | H : _ /\ _ |- _ => destruct H
    end;
  repeat split; try assumption; try lra;
  try (intros ? [= <-]; lra); try discriminate.

Lemma sane_boot t : sane t init.
Proof. sane_split. left. lra. Qed.

Lemma sane_mono t t' s : t <= t' -> sane t s -> sane t' s.
Proof.
  intros Ht (Hoff & Hclock & Hlen). repeat split; try assumption.
  intros t0 E. specialize (Hclock t0 E). lra.
Qed.

Lemma stop_music_sane t w : sane t (self w) -> sane t (self (stop_music w)).
Proof.
  intro H. unfold stop_music. destruct (playing (self w)); [|exact H].
  sane_split.
Qed.

Lemma toggle_pause_sane now w :
  sane now (self w) -> sane now (self (toggle_pause now w)).
Proof.
  intro H. unfold toggle_pause.
  destruct (playing (self w)); [|exact H].
  destruct (paused (self w)); cbn [negb].
  - sane_split.
  - destruct H as (Hoff & Hclock & Hlen). cbn [issue self].
    destruct (play_start_time (self w)) as [t0|] eqn:E; sane_split.
    specialize (Hclock t0 eq_refl). lra.
Qed.

Lemma position_at_nonneg now s p :
  sane now s -> position_at now s = Some p -> 0 <= p.
Proof.
  intros (Hoff & Hclock & _). unfold position_at.
  destruct (paused s).
  - intros [= <-]. exact Hoff.
  - destruct (play_start_time s) as [t0|]; [|discriminate].
    intros [= <-]. specialize (Hclock t0 eq_refl). lra.
Qed.

Lemma seek_sane e now delta w :
  sane now (self w) -> holds (sane now) (seek e now now delta w).
Proof.
  intro H. unfold seek.
  destruct (playing (self w) && Qlt_bool 0 (track_length (self w))) eqn:G;
    [|exact H].
  bool_hyps.
  destruct (position_at now (self w)) as [p|]; [|exact H].
  cbn [issue self].
  assert (0 <= seek_target (track_length (self w)) (float_add e p delta))
    as Hpos.
  { apply seek_target_range. destruct H as (_ & _ & [Hl|Hl]); lra. }
  destruct (music_play e _); [|exact H].
  destruct (paused (self w)); cbn [negb holds]; sane_split.
Qed.

Lemma jump_to_position_sane e now x width w :
  sane now (self w) ->
  holds (sane now) (jump_to_position e now now now x width w).
Proof.
  intro H. unfold jump_to_position.
  destruct (playing (self w) && Qlt_bool 0 (track_length (self w)));
    [|exact H].
  destruct (width =? 0)%Z; [exact H|].
  destruct (position_at now (self w)); [|exact H].
  apply seek_sane. exact H.
Qed.

Lemma chronological_head_le rest : forall i j,
  chronological (i :: rest) -> In j rest -> at_time i <= at_time j.
Proof.
  induction rest as [|k rest IH]; intros i j [Hnext Hchron] Hj;
    [contradiction|].
  destruct Hj as [<-|Hj]; [exact Hnext|].
  specialize (IH k j Hchron Hj). lra.
Qed.

Section LongTracks.

Variable e : Env.
Hypothesis probes : probes_long e.

Lemma play_next_song_with_sane progress now w :
  (forall w', sane now (self w') -> holds (sane now) (progress w')) ->
  sane now (self w) ->
  holds (sane now) (play_next_song_with e progress now w).
Proof.
  intros Hprogress H. unfold play_next_song_with.
  destruct (playlist (self w)) as [|a l] eqn:El; [exact H|].
  cbn [upd self set_current_index playlist].
  destruct (nth_error _ _) as [path|]; [|exact H].
  apply holds_catch; [|intros w' Hw'; exact Hw'].
  cbn [upd self set_current_file issue].
  destruct (music_load e path); [|exact H].
  destruct (probe_length e path) as [len|] eqn:Hprobe; [|exact H].
  apply probes in Hprobe.
  cbn [upd self set_track_length issue].
  destruct (music_play e 0).
  - apply Hprogress. sane_split.
  - sane_split.
Qed.

Lemma update_progress_sane now busy : forall w,
  sane now (self w) -> holds (sane now) (update_progress e now busy w).
Proof.
  induction busy as [|b busy IH]; intros w H; cbn [update_progress];
    (destruct (playing (self w) && Qlt_bool 0 (track_length (self w)));
       [|exact H]);
    (destruct (position_at now (self w)); [|exact H]);
    cbn [show self];
    (destruct (current_file (self w)); [|exact H]).
  - exact I.
  - destruct (negb b && negb (paused (self w))); [|exact H].
    destruct (playlist (self w)) as [|a l] eqn:El.
    + cbn [holds show self]. apply stop_music_sane. exact H.
    + apply play_next_song_with_sane; [exact IH|exact H].
Qed.

Lemma play_music_sane now busy w :
  sane now (self w) -> holds (sane now) (play_music e now busy w).
Proof.
  intro H. unfold play_music.
  destruct (current_file (self w)) as [path|]; [|exact H].
  destruct (Path.nonempty path); [|exact H].
  apply holds_catch; [|intros w' Hw'; exact Hw'].
  cbn [issue self]. destruct (music_play e 0); [|exact H].
  apply update_progress_sane. sane_split.
Qed.

Lemma load_file_sane t file_path w :
  sane t (self w) -> holds (sane t) (load_file e file_path w).
Proof.
  intro H. unfold load_file.
  destruct (Path.nonempty file_path); [|exact H].
  destruct (Path.is_mp3 file_path); [|exact H].
  apply holds_catch; [|intros w' Hw'; exact Hw'].
  cbn [upd self issue]. destruct (music_load e file_path); [|exact H].
  destruct (probe_length e file_path) as [len|] eqn:Hprobe; [|exact H].
  apply probes in Hprobe. sane_split.
Qed.

Lemma load_folder_sane now busy folder listing w :
  sane now (self w) ->
  holds (sane now) (load_folder e now busy folder listing w).
Proof.
  intro H. unfold load_folder.
  destruct (Path.nonempty folder); [|exact H].
  assert (sane now (self (if playing (self w) then stop_music w else w)))
    as H'.
  { destruct (playing (self w)); [apply stop_music_sane|]; exact H. }
  destruct listing as [files|]; [|exact H'].
  destruct (map _ _) as [|m ms]; [exact H'|].
  cbn [upd self set_playlist set_current_index playlist].
  destruct (nth_error _ 0) as [path|]; [|exact H'].
  apply holds_catch; [|intros w' Hw'; exact Hw'].
  cbn [upd self issue]. destruct (music_load e path); [|exact H'].
  destruct (probe_length e path) as [len|] eqn:Hprobe; [|exact H'].
  apply probes in Hprobe. apply play_music_sane. sane_split.
Qed.

Lemma handle_sane i w :
  sane (at_time i) (self w) -> holds (sane (at_time i)) (handle e i w).
Proof.
  intro H. unfold handle. destruct (action i).
  - apply load_file_sane. exact H.
  - apply load_folder_sane. exact H.
  - apply play_music_sane. exact H.
  - apply toggle_pause_sane. exact H.
  - apply stop_music_sane. exact H.
  - apply seek_sane. exact H.
  - apply jump_to_position_sane. exact H.
  - apply seek_sane. exact H.
  - apply seek_sane. exact H.
  - apply play_next_song_with_sane; [|exact H].
    intros w' Hw'. apply update_progress_sane. exact Hw'.
  - apply update_progress_sane. exact H.
Qed.

Lemma run_sane now inputs : forall t w w',
  sane t (self w) ->
  t <= now ->
  chronological inputs ->
  (forall i, In i inputs -> t <= at_time i <= now) ->
  run e inputs w = Some w' ->
  sane now (self w').
Proof.
  induction inputs as [|i rest IH]; intros t w w' H Ht Hchron Hbound Hrun.
  - injection Hrun as <-. apply (sane_mono t); assumption.
  - destruct (Hbound i (or_introl eq_refl)) as [Hlo Hhi].
    pose proof (handle_sane i w (sane_mono _ _ _ Hlo H)) as Hstep.
    assert (forall j, In j rest -> at_time i <= at_time j <= now) as Hrest.
    { intros j Hj. split.
      - exact (chronological_head_le rest i j Hchron Hj).
      - apply (Hbound j). right. exact Hj. }
    destruct Hchron as [_ Hchron].
    cbn [run] in Hrun.
    destruct (handle e i w) as [w1|x w1|]; [| |discriminate];
      exact (IH (at_time i) w1 w' Hstep Hhi Hchron Hrest Hrun).
Qed.

End LongTracks.

(** X21: when every duration the probes report is 0 or at least one
    second and the clock does not run backwards, what [update_progress]
    derives at any instant not before the last input of a run lies
    between 0 and the duration. *)
Lemma elapsed_bounds_on_long_tracks e inputs w now q :
  probes_long e ->
  chronological inputs ->
  (forall i, In i inputs -> at_time i <= now) ->
  run e inputs boot = Some w ->
  0 < track_length (self w) ->
  elapsed now (self w) = Some q ->
  0 <= q <= track_length (self w).
Proof.
  intros Hprobes Hchron Hbound Hrun Hlen Hq.
  split; [|exact (elapsed_le_length _ _ _ Hq)].
  destruct inputs as [|i rest].
  - injection Hrun as <-. vm_compute in Hlen. discriminate.
  - assert (sane now (self w)) as Hsane.
    { apply (run_sane e Hprobes now (i :: rest) (at_time i) boot w).
      - apply sane_boot.
      - apply Hbound. left. reflexivity.
      - exact Hchron.
      - intros j Hj. split; [|apply Hbound; exact Hj].
        destruct Hj as [<-|Hj]; [lra|].
        exact (chronological_head_le rest i j Hchron Hj).
      - exact Hrun. }
    unfold elapsed in Hq.
    destruct (position_at now (self w)) as [p|] eqn:Hp; [|discriminate].
    cbn in Hq. injection Hq as <-.
    apply clamp_to_length_nonneg; [lra|].
    exact (position_at_nonneg now (self w) p Hsane Hp).
Qed.

(** * Further properties of the handlers *)

(** ** Stopping *)

(** X1: [stop_music] is idempotent.  It leaves the playing and paused
    flags down, the offset at 0 and the segment clock cleared, and it
    touches neither the current file, the playlist, the index nor the
    duration; on a player that is not playing it does nothing at all,
    so the mixer is told to stop at most once. *)
Theorem stop_music_settles w :
  stop_music (stop_music w) = stop_music w /\
  playing (self (stop_music w)) = false /\
  (playing (self w) = true ->
     paused (self (stop_music w)) = false /\
     offset (self (stop_music w)) = 0 /\
     play_start_time (self (stop_music w)) = None /\
     engine (stop_music w) = (engine w ++ [MusicStop])%list) /\
  (playing (self w) = false -> stop_music w = w) /\
  current_file (self (stop_music w)) = current_file (self w) /\
  playlist (self (stop_music w)) = playlist (self w) /\
  current_index (self (stop_music w)) = current_index (self w) /\
  track_length (self (stop_music w)) = track_length (self w).
Proof.
  unfold stop_music. destruct (playing (self w)) eqn:Hplay.
  - cbn. repeat split; congruence.
  - rewrite Hplay. repeat split; congruence.
Qed.

(** ** Flags and clock along a run *)

Ltac coherent_now :=
  unfold coherent in *; cbn in *; intuition congruence.

Lemma stop_music_coherent w :
  coherent (self w) -> coherent (self (stop_music w)).
Proof.
  intro H. unfold stop_music. destruct (playing (self w)); [|exact H].
  coherent_now.
Qed.

Lemma toggle_pause_coherent now w :
  coherent (self w) -> coherent (self (toggle_pause now w)).
Proof.
  intro H. unfold toggle_pause.
  destruct (playing (self w)) eqn:Hplay; [|exact H].
  destruct (paused (self w)) eqn:Hrun; cbn [negb].
  - coherent_now.
  - cbn [issue self].
    destruct (play_start_time (self w)) eqn:E; coherent_now.
Qed.

Lemma seek_coherent e now later delta w :
  coherent (self w) -> holds coherent (seek e now later delta w).
Proof.
  intro H. unfold seek.
  destruct (playing (self w) && Qlt_bool 0 (track_length (self w))) eqn:G;
    [|exact H].
  apply andb_true_iff in G. destruct G as [Hplay _].
  destruct (position_at now (self w)); [|exact H].
  cbn [issue self]. destruct (music_play e _); [|exact H].
  destruct (paused (self w)) eqn:Hrun; cbn [negb holds]; coherent_now.
Qed.

Lemma jump_to_position_coherent e now now' later x width w :
  coherent (self w) -> holds coherent (jump_to_position e now now' later x width w).
Proof.
  intro H. unfold jump_to_position.
  destruct (playing (self w) && Qlt_bool 0 (track_length (self w)));
    [|exact H].
  destruct (width =? 0)%Z; [exact H|].
  destruct (position_at now (self w)); [|exact H].
  apply seek_coherent. exact H.
Qed.

Lemma play_next_song_with_coherent e progress now w :
  (forall w', coherent (self w') -> holds coherent (progress w')) ->
  coherent (self w) ->
  holds coherent (play_next_song_with e progress now w).
Proof.
  intros Hprogress H. unfold play_next_song_with.
  destruct (playlist (self w)) as [|a l]; [exact H|].
  cbn [upd self set_current_index playlist].
  destruct (nth_error _ _) as [path|]; [|coherent_now].
  apply holds_catch; [|intros w' Hw'; exact Hw'].
  cbn [upd self set_current_file issue].
  destruct (music_load e path); [|coherent_now].
  destruct (probe_length e path) as [len|]; [|coherent_now].
  cbn [upd self set_track_length issue].
  destruct (music_play e 0); [|coherent_now].
  apply Hprogress. coherent_now.
Qed.

Lemma update_progress_coherent e now busy : forall w,
  coherent (self w) -> holds coherent (update_progress e now busy w).
Proof.
  induction busy as [|b busy IH]; intros w H; cbn [update_progress];
    (destruct (playing (self w) && Qlt_bool 0 (track_length (self w)));
       [|exact H]);
    (destruct (position_at now (self w)); [|exact H]);
    cbn [show self];
    (destruct (current_file (self w)); [|exact H]).
  - exact I.
  - destruct (negb b && negb (paused (self w))); [|exact H].
    destruct (playlist (self w)) as [|a l] eqn:El.
    + cbn [holds show self]. apply stop_music_coherent. exact H.
    + apply play_next_song_with_coherent; [exact IH|exact H].
Qed.

Lemma play_music_coherent e now busy w :
  coherent (self w) -> holds coherent (play_music e now busy w).
Proof.
  intro H. unfold play_music.
  destruct (current_file (self w)) as [path|]; [|exact H].
  destruct (Path.nonempty path); [|exact H].
  apply holds_catch; [|intros w' Hw'; exact Hw'].
  cbn [issue self]. destruct (music_play e 0); [|exact H].
  apply update_progress_coherent. coherent_now.
Qed.

Lemma load_file_coherent e file_path w :
  coherent (self w) -> holds coherent (load_file e file_path w).
Proof.
  intro H. unfold load_file.
  destruct (Path.nonempty file_path); [|exact H].
  destruct (Path.is_mp3 file_path); [|coherent_now].
  apply holds_catch; [|intros w' Hw'; coherent_now].
  cbn [upd self issue].
  destruct (music_load e file_path); [|coherent_now].
  destruct (probe_length e file_path); coherent_now.
Qed.

Lemma load_folder_coherent e now busy folder listing w :
  coherent (self w) ->
  holds coherent (load_folder e now busy folder listing w).
Proof.
  intro H. unfold load_folder.
  destruct (Path.nonempty folder); [|exact H].
  assert (coherent (self (if playing (self w) then stop_music w else w)))
    as H'.
  { destruct (playing (self w)); [apply stop_music_coherent|]; exact H. }
  destruct listing as [files|]; [|exact H'].
  destruct (map _ _) as [|m ms]; [exact H'|].
  set (w0 := if playing (self w) then stop_music w else w) in *.
  cbn [upd self set_playlist set_current_index playlist].
  destruct (nth_error _ 0) as [path|]; [|coherent_now].
  apply holds_catch; [|intros w' Hw'; coherent_now].
  cbn [upd self issue]. destruct (music_load e path); [|coherent_now].
  destruct (probe_length e path) as [len|]; [|coherent_now].
  apply play_music_coherent. coherent_now.
Qed.

Lemma handle_coherent e i w :
  coherent (self w) -> holds coherent (handle e i w).
Proof.
  intro H. unfold handle. destruct (action i).
  - apply load_file_coherent. exact H.
  - apply load_folder_coherent. exact H.
  - apply play_music_coherent. exact H.
  - apply toggle_pause_coherent. exact H.
  - apply stop_music_coherent. exact H.
  - apply seek_coherent. exact H.
  - apply jump_to_position_coherent. exact H.
  - apply seek_coherent. exact H.
  - apply seek_coherent. exact H.
  - apply play_next_song_with_coherent; [|exact H].
    intros w' Hw'. apply update_progress_coherent. exact Hw'.
  - apply update_progress_coherent. exact H.
Qed.

Lemma run_coherent e inputs : forall w w',
  coherent (self w) -> run e inputs w = Some w' -> coherent (self w').
Proof.
  induction inputs as [|i rest IH]; intros w w' H Hrun.
  - injection Hrun as <-. exact H.
  - cbn [run] in Hrun. pose proof (handle_coherent e i w H) as Hstep.
    destruct (handle e i w) as [w1|x w1|]; [| |discriminate];
      exact (IH w1 w' Hstep Hrun).
Qed.

Lemma boot_coherent : coherent (self boot).
Proof. coherent_now. Qed.

(** X2: in every state a run reaches from the initial one, whatever the
    collaborators answer and whichever handlers are called: a player
    that is not playing is unpaused, has offset 0 and no segment clock;
    a paused player has no segment clock; a player that plays unpaused
    has one. *)
Theorem reachable_coherent e w :
  reachable e w ->
  (playing (self w) = false ->
     paused (self w) = false /\ offset (self w) = 0 /\
     play_start_time (self w) = None) /\
  (paused (self w) = true ->
     playing (self w) = true /\ play_start_time (self w) = None) /\
  (playing (self w) = true -> paused (self w) = false ->
     exists t0, play_start_time (self w) = Some t0).
Proof.
  intros (inputs & _ & Hrun).
  destruct (run_coherent e inputs boot w boot_coherent Hrun)
    as (Hstop & Hpause & Hclock).
  split; [exact Hstop|]. split.
  - intro Hp. split; [|exact (Hpause Hp)].
    destruct (playing (self w)) eqn:E; [reflexivity|].
    destruct (Hstop eq_refl) as [C _]. congruence.
  - intros Hplay Hrunning.
    destruct (play_start_time (self w)) as [t0|] eqn:E.
    + exists t0. reflexivity.
    + exfalso. exact (Hclock Hplay Hrunning eq_refl).
Qed.

Lemma folder_session_chronological : chronological folder_session.
Proof. cbn. repeat split; vm_compute; congruence. Qed.

Lemma folder_session_reached :
  reachable (obliging 10) (after (obliging 10) folder_session).
Proof.
  exists folder_session. split; [exact folder_session_chronological|].
  vm_compute. reflexivity.
Qed.

Lemma reachable_coherent_witness :
  let w := after (obliging 10) folder_session in
  (playing (self w) = false ->
     paused (self w) = false /\ offset (self w) = 0 /\
     play_start_time (self w) = None) /\
  (paused (self w) = true ->
     playing (self w) = true /\ play_start_time (self w) = None) /\
  (playing (self w) = true -> paused (self w) = false ->
     exists t0, play_start_time (self w) = Some t0).
Proof.
  apply (reachable_coherent (obliging 10) (after (obliging 10) folder_session)).
  exact folder_session_reached.
Defined.

Lemma coherent_position now s :
  coherent s -> playing s = true -> exists p, position_at now s = Some p.
Proof.
  intros (_ & _ & Hclock) Hplay. unfold position_at.
  destruct (paused s) eqn:Hrun; [eexists; reflexivity|].
  destruct (play_start_time s) as [t0|] eqn:E; [eexists; reflexivity|].
  exfalso. exact (Hclock Hplay eq_refl eq_refl).
Qed.

(** X3: in a state a run has reached, [seek] (and so the Rewind and
    Fast Forward buttons) and [jump_to_position] never fail over a
    missing segment clock: [seek] ends normally or with the mixer's own
    error, and [jump_to_position] can in addition only fail by dividing
    by a zero widget width. *)
Theorem seek_never_type_error e w now later now' later' delta x width :
  reachable e w ->
  (forall err w',
     seek e now later delta w = Raise err w' -> err = PygameError) /\
  (forall err w',
     jump_to_position e now now' later' x width w = Raise err w' ->
     err = PygameError \/ err = ZeroDivisionError).
Proof.
  intros (inputs & _ & Hrun).
  pose proof (run_coherent e inputs boot w boot_coherent Hrun) as Hc.
  assert (forall t t' d err w',
             seek e t t' d w = Raise err w' -> err = PygameError) as Hseek.
  { intros t t' d err w'. unfold seek.
    destruct (playing (self w) && Qlt_bool 0 (track_length (self w))) eqn:G;
      [|discriminate].
    apply andb_true_iff in G. destruct G as [Hplay _].
    destruct (coherent_position t (self w) Hc Hplay) as (p & Hp).
    rewrite Hp. cbn [issue self].
    destruct (music_play e _).
    - destruct (paused (self w)); discriminate.
    - intros [= <- _]. reflexivity. }
  split; [exact (Hseek now later delta)|].
  intros err w'. unfold jump_to_position.
  destruct (playing (self w) && Qlt_bool 0 (track_length (self w))) eqn:G;
    [|discriminate].
  apply andb_true_iff in G. destruct G as [Hplay _].
  destruct (width =? 0)%Z.
  - intros [= <- _]. right. reflexivity.
  - destruct (coherent_position now (self w) Hc Hplay) as (p & Hp).
    rewrite Hp. intro Hs. left. exact (Hseek _ _ _ err w' Hs).
Qed.

Lemma seek_never_type_error_witness :
  let w := after (obliging 10) folder_session in
  (forall err w',
     seek (obliging 10) 9 10 5 w = Raise err w' -> err = PygameError) /\
  (forall err w',
     jump_to_position (obliging 10) 9 10 11 40 0 w = Raise err w' ->
     err = PygameError \/ err = ZeroDivisionError).
Proof.
  apply (seek_never_type_error (obliging 10)
           (after (obliging 10) folder_session) 9 10 10 11 5 40 0).
  exact folder_session_reached.
Defined.

(** ** What the transport controls leave alone *)

(** X4: pausing, resuming, stopping, seeking, rewinding, fast-forwarding
    and clicking the progress bar never change the current file, the
    playlist, the index or the duration, whether the call ends normally
    or with an exception. *)
Theorem transport_keeps_track e i w w' :
  within_track (action i) = true ->
  final (handle e i w) = Some w' ->
  current_file (self w') = current_file (self w) /\
  playlist (self w') = playlist (self w) /\
  current_index (self w') = current_index (self w) /\
  track_length (self w') = track_length (self w).
Proof.
  assert (forall d o,
             final (seek e (at_time i) (at_time i) d w) = Some o ->
             current_file (self o) = current_file (self w) /\
             playlist (self o) = playlist (self w) /\
             current_index (self o) = current_index (self w) /\
             track_length (self o) = track_length (self w)) as Hseek.
  { intros d o. unfold seek.
    destruct (playing (self w) && Qlt_bool 0 (track_length (self w))).
    2: { intros [= <-]. repeat split. }
    destruct (position_at (at_time i) (self w)).
    2: { intros [= <-]. repeat split. }
    cbn [issue self]. destruct (music_play e _).
    2: { intros [= <-]. repeat split. }
    destruct (paused (self w)); cbn [negb]; intros [= <-]; repeat split. }
  unfold handle. destruct (action i); cbn [within_track]; try discriminate;
    intros _.
  - cbn [final]. intros [= <-]. unfold toggle_pause.
    destruct (playing (self w)); [|repeat split].
    destruct (paused (self w)); cbn [negb]; [repeat split|].
    cbn [issue self]. destruct (play_start_time (self w)); repeat split.
  - cbn [final]. intros [= <-]. unfold stop_music.
    destruct (playing (self w)); repeat split.
  - apply Hseek.
  - unfold jump_to_position.
    destruct (playing (self w) && Qlt_bool 0 (track_length (self w))).
    2: { intros [= <-]. repeat split. }
    destruct (width =? 0)%Z.
    { intros [= <-]. repeat split. }
    destruct (position_at (at_time i) (self w)).
    2: { intros [= <-]. repeat split. }
    apply Hseek.
  - apply Hseek.
  - apply Hseek.
Qed.

Lemma transport_keeps_track_witness :
  exists w',
    final (handle (obliging 10) (mkInput 9 [] (Seek 30)) in_playlist)
      = Some w' /\
    current_file (self w') = current_file (self in_playlist) /\
    playlist (self w') = playlist (self in_playlist) /\
    current_index (self w') = current_index (self in_playlist) /\
    track_length (self w') = track_length (self in_playlist).
Proof.
  eexists. split; [vm_compute; reflexivity|].
  apply (transport_keeps_track (obliging 10) (mkInput 9 [] (Seek 30))
                               in_playlist).
  - reflexivity.
  - vm_compute. reflexivity.
Defined.

(** ** More on seeking *)

(** X7: when the mixer refuses the restart, [seek] ends with the
    mixer's exception and changes no attribute: the offset and the
    segment clock are those from before the call, and the only call on
    the mixer is the refused [play]. *)
Theorem seek_refused e now later delta w p :
  playing (self w) = true ->
  0 < track_length (self w) ->
  position_at now (self w) = Some p ->
  music_play e (seek_target (track_length (self w)) (float_add e p delta))
    = false ->
  exists w',
    seek e now later delta w = Raise PygameError w' /\
    self w' = self w /\
    ui w' = ui w /\
    engine w' =
      (engine w ++
       [MusicPlay (seek_target (track_length (self w))
                               (float_add e p delta))])%list.
Proof.
  intros Hplay Hlen Hpos Hno. unfold seek.
  apply Qlt_bool_iff in Hlen. rewrite Hplay, Hlen, Hpos. cbn [andb].
  cbn [issue self]. rewrite Hno. eexists. repeat split.
Qed.

Lemma seek_refused_witness :
  exists w',
    seek (mute 10) 9 10 3 paused_at_five = Raise PygameError w' /\
    self w' = self paused_at_five /\
    ui w' = ui paused_at_five /\
    engine w' =
      (engine paused_at_five ++
       [MusicPlay (seek_target (track_length (self paused_at_five))
                               (float_add (mute 10) 5 3))])%list.
Proof.
  apply (seek_refused (mute 10) 9 10 3 paused_at_five 5); reflexivity.
Defined.

(** ** More on loading *)

(** X8: a successful [load_file] makes the chosen file the current one
    with the probed duration, empties the playlist and resets the index,
    after one [load] on the mixer; it does not stop a player that is
    playing: both flags, the offset and the segment clock are left as
    they were.  With the playlist gone, [play_next_song] then does
    nothing. *)
Theorem load_file_loads e path w len :
  Path.nonempty path = true ->
  Path.is_mp3 path = true ->
  music_load e path = true ->
  probe_length e path = Some len ->
  exists w',
    load_file e path w = Ok w' /\
    current_file (self w') = Some path /\
    track_length (self w') = len /\
    playlist (self w') = [] /\
    current_index (self w') = (-1)%Z /\
    engine w' = (engine w ++ [MusicLoad path])%list /\
    ui w' = ui w /\
    playing (self w') = playing (self w) /\
    paused (self w') = paused (self w) /\
    offset (self w') = offset (self w) /\
    play_start_time (self w') = play_start_time (self w) /\
    (forall now busy, play_next_song e now busy w' = Ok w').
Proof.
  intros Hpath Hext Hload Hprobe. unfold load_file.
  rewrite Hpath, Hext. cbn. rewrite Hload, Hprobe. cbn.
  eexists. split; [reflexivity|]. repeat split.
Qed.

Lemma load_file_loads_witness :
  exists w',
    load_file (obliging 10) "Next Song.MP3" in_playlist = Ok w' /\
    current_file (self w') = Some "Next Song.MP3" /\
    track_length (self w') = 10 /\
    playlist (self w') = [] /\
    current_index (self w') = (-1)%Z /\
    engine w' = (engine in_playlist ++ [MusicLoad "Next Song.MP3"])%list /\
    ui w' = ui in_playlist /\
    playing (self w') = playing (self in_playlist) /\
    paused (self w') = paused (self in_playlist) /\
    offset (self w') = offset (self in_playlist) /\
    play_start_time (self w') = play_start_time (self in_playlist) /\
    (forall now busy, play_next_song (obliging 10) now busy w' = Ok w').
Proof.
  apply (load_file_loads (obliging 10) "Next Song.MP3" in_playlist 10);
    reflexivity.
Defined.

(** X9: when the mixer cannot open the chosen MP3 file, or mutagen
    cannot read it, [load_file] shows an error and sets the current file
    to [None]; the playlist has been emptied and the index reset all the
    same, and the flags, the offset, the segment clock and the duration
    stay those of the track loaded before. *)
Theorem load_file_failure_clears e path w :
  Path.nonempty path = true ->
  Path.is_mp3 path = true ->
  music_load e path = false \/ probe_length e path = None ->
  exists w',
    load_file e path w = Ok w' /\
    current_file (self w') = None /\
    playlist (self w') = [] /\
    current_index (self w') = (-1)%Z /\
    ui w' = (ui w ++ [ShowError "Error"])%list /\
    engine w' = (engine w ++ [MusicLoad path])%list /\
    track_length (self w') = track_length (self w) /\
    playing (self w') = playing (self w) /\
    paused (self w') = paused (self w) /\
    offset (self w') = offset (self w) /\
    play_start_time (self w') = play_start_time (self w).
Proof.
  intros Hpath Hext Hfail. unfold load_file. rewrite Hpath, Hext. cbn.
  destruct (music_load e path) eqn:Hload.
  - destruct Hfail as [Hfail|Hfail]; [discriminate|]. rewrite Hfail.
    eexists. split; [reflexivity|]. repeat split.
  - eexists. split; [reflexivity|]. repeat split.
Qed.

Lemma load_file_failure_clears_witness :
  exists w',
    load_file (choking_on "b.mp3" 10) "b.mp3" in_playlist = Ok w' /\
    current_file (self w') = None /\
    playlist (self w') = [] /\
    current_index (self w') = (-1)%Z /\
    ui w' = (ui in_playlist ++ [ShowError "Error"])%list /\
    engine w' = (engine in_playlist ++ [MusicLoad "b.mp3"])%list /\
    track_length (self w') = track_length (self in_playlist) /\
    playing (self w') = playing (self in_playlist) /\
    paused (self w') = paused (self in_playlist) /\
    offset (self w') = offset (self in_playlist) /\
    play_start_time (self w') = play_start_time (self in_playlist).
Proof.
  apply (load_file_failure_clears (choking_on "b.mp3" 10) "b.mp3" in_playlist).
  - reflexivity.
  - reflexivity.
  - left. reflexivity.
Defined.

(** X10: a player left playing without a current file (as after a
    failed [load_file] during playback) makes the next periodic update
    fail: [update_progress] sets the progress bar, raises a [TypeError]
    on the missing file name, makes no call on the mixer, changes no
    attribute and schedules no further update. *)
Theorem update_progress_without_file e now busy w p :
  playing (self w) = true ->
  0 < track_length (self w) ->
  position_at now (self w) = Some p ->
  current_file (self w) = None ->
  exists w' percent,
    update_progress e now busy w = Raise TypeError w' /\
    self w' = self w /\
    engine w' = engine w /\
    ui w' = (ui w ++ [ProgressSet percent])%list.
Proof.
  intros Hplay Hlen Hpos Hfile.
  apply Qlt_bool_iff in Hlen.
  destruct busy; cbn [update_progress];
    rewrite Hplay, Hlen, Hpos; cbn; rewrite Hfile;
    eexists; eexists; repeat split.
Qed.

Lemma update_progress_without_file_witness :
  exists w' percent,
    update_progress (choking_on "b.mp3" 10) 4 [true]
      (after (choking_on "b.mp3" 10)
             [ mkInput 0 [] (LoadFile "a.mp3");
               mkInput 1 [true] PlayMusic;
               mkInput 2 [] (LoadFile "b.mp3") ])
      = Raise TypeError w' /\
    self w' = self (after (choking_on "b.mp3" 10)
                          [ mkInput 0 [] (LoadFile "a.mp3");
                            mkInput 1 [true] PlayMusic;
                            mkInput 2 [] (LoadFile "b.mp3") ]) /\
    engine w' = engine (after (choking_on "b.mp3" 10)
                              [ mkInput 0 [] (LoadFile "a.mp3");
                                mkInput 1 [true] PlayMusic;
                                mkInput 2 [] (LoadFile "b.mp3") ]) /\
    ui w' = (ui (after (choking_on "b.mp3" 10)
                       [ mkInput 0 [] (LoadFile "a.mp3");
                         mkInput 1 [true] PlayMusic;
                         mkInput 2 [] (LoadFile "b.mp3") ])
             ++ [ProgressSet percent])%list.
Proof.
  apply (update_progress_without_file (choking_on "b.mp3" 10) 4 [true] _
                                      (0 + (4 - 1))).
  - reflexivity.
  - reflexivity.
  - reflexivity.
  - reflexivity.
Defined.

(** X11: when mutagen is absent and [Sound] cannot measure the file,
    [load_file] still loads it, with duration 0; [play_music] then
    starts it, whatever the mixer says about being busy, and from then
    on [seek], [jump_to_position] and [update_progress] do nothing at
    all: no position is shown and the end of the track is never
    noticed. *)
Theorem unmeasured_track_has_no_progress e path w now busy :
  use_mutagen e = false ->
  sound_length e path = None ->
  Path.nonempty path = true ->
  Path.is_mp3 path = true ->
  music_load e path = true ->
  music_play e 0 = true ->
  exists w1 w2,
    load_file e path w = Ok w1 /\
    track_length (self w1) = 0 /\
    play_music e now busy w1 = Ok w2 /\
    playing (self w2) = true /\
    forall t t' t'' delta x width answers,
      seek e t t' delta w2 = Ok w2 /\
      jump_to_position e t t' t'' x width w2 = Ok w2 /\
      update_progress e t answers w2 = Ok w2.
Proof.
  intros Hmut Hsound Hpath Hext Hload Hplay.
  unfold load_file, probe_length. rewrite Hpath, Hext, Hmut, Hsound.
  cbn. rewrite Hload. cbn.
  eexists. eexists. split; [reflexivity|]. split; [reflexivity|].
  unfold play_music. cbn. rewrite Hpath. cbn. rewrite Hplay.
  assert (forall t answers w0,
             track_length (self w0) = 0 ->
             update_progress e t answers w0 = Ok w0) as Hquiet.
  { intros t answers w0 E.
    destruct answers; cbn [update_progress]; rewrite E, andb_false_r;
      reflexivity. }
  rewrite Hquiet by reflexivity. cbn [catch].
  split; [reflexivity|]. split; [reflexivity|].
  intros t t' t'' delta x width answers.
  unfold jump_to_position, seek. cbn. rewrite Hquiet by reflexivity.
  repeat split.
Qed.

Lemma unmeasured_track_has_no_progress_witness :
  exists w1 w2,
    load_file unmeasuring "a.mp3" boot = Ok w1 /\
    track_length (self w1) = 0 /\
    play_music unmeasuring 1 [] w1 = Ok w2 /\
    playing (self w2) = true /\
    forall t t' t'' delta x width answers,
      seek unmeasuring t t' delta w2 = Ok w2 /\
      jump_to_position unmeasuring t t' t'' x width w2 = Ok w2 /\
      update_progress unmeasuring t answers w2 = Ok w2.
Proof.
  apply (unmeasured_track_has_no_progress unmeasuring "a.mp3" boot 1 []);
    reflexivity.
Defined.

Lemma join_nonempty folder file :
  Path.nonempty folder = true -> Path.nonempty (Path.join folder file) = true.
Proof.
  intro H. unfold Path.join.
  destruct folder as [|c folder]; [discriminate|].
  destruct (Path.endswith _ _); reflexivity.
Qed.

(** [play_music] on a loaded file with a mixer that accepts and is then
    busy: the attributes it leaves. *)
Lemma play_music_started e now b bs w path :
  current_file (self w) = Some path ->
  Path.nonempty path = true ->
  music_play e 0 = true ->
  track_length (self w) <= 0 \/ b = true ->
  exists w',
    play_music e now (b :: bs) w = Ok w' /\
    self w' = set_paused false
                (set_playing true
                   (set_play_start_time (Some now) (set_offset 0 (self w)))) /\
    engine w' = (engine w ++ [MusicPlay 0])%list.
Proof.
  intros Hfile Hpath Hok Hbusy. unfold play_music.
  rewrite Hfile, Hpath, Hok.
  set (w1 := upd (set_paused false) _).
  destruct (update_progress_after_start e now b bs w1 path)
    as (w' & Hrun & Hself & Hengine); try reflexivity.
  - cbn. exact Hfile.
  - cbn. exact Hbusy.
  - rewrite Hrun. cbn [catch]. exists w'. split; [reflexivity|].
    rewrite Hself, Hengine. split; reflexivity.
Qed.

(** X12: [load_folder] on a folder with at least one MP3 file, with a
    shuffle that only reorders and a mixer that opens and plays the
    first file of the new order: the playlist is a reordering of the
    folder's entries that end in [.mp3] (in any case), each joined to
    the folder path, so no other entry is ever played; the index is 0,
    the first file is the current one, and the player is playing it from
    0 since the instant of the call.  A player that was playing has been
    stopped first. *)
Theorem load_folder_starts e now b bs folder files w path rest len :
  Path.nonempty folder = true ->
  shuffle_permutes e ->
  shuffle e (map (Path.join folder) (filter Path.is_mp3 files))
    = path :: rest ->
  music_load e path = true ->
  probe_length e path = Some len ->
  music_play e 0 = true ->
  len <= 0 \/ b = true ->
  exists w',
    load_folder e now (b :: bs) folder (Some files) w = Ok w' /\
    playlist (self w') = path :: rest /\
    Permutation (map (Path.join folder) (filter Path.is_mp3 files))
                (playlist (self w')) /\
    (forall entry, In entry (playlist (self w')) ->
       exists file,
         In file files /\ Path.is_mp3 file = true /\
         entry = Path.join folder file) /\
    current_index (self w') = 0%Z /\
    current_file (self w') = Some path /\
    track_length (self w') = len /\
    playing (self w') = true /\ paused (self w') = false /\
    offset (self w') = 0 /\ play_start_time (self w') = Some now /\
    engine w' =
      (engine w ++ (if playing (self w) then [MusicStop] else [])
                ++ [MusicLoad path; MusicPlay 0])%list.
Proof.
  intros Hdir Hperm Hshuf Hload Hprobe Hplay Hbusy.
  pose proof (Hperm (map (Path.join folder) (filter Path.is_mp3 files)))
    as Hp. rewrite Hshuf in Hp.
  assert (forall entry, In entry (path :: rest) ->
            exists file, In file files /\ Path.is_mp3 file = true /\
                         entry = Path.join folder file) as Hfrom.
  { intros entry Hin.
    apply (Permutation_in _ (Permutation_sym Hp)) in Hin.
    apply in_map_iff in Hin. destruct Hin as (file & <- & Hfile).
    apply filter_In in Hfile. destruct Hfile as [Hfile Hmp3].
    exists file. repeat split; assumption. }
  assert (Path.nonempty path = true) as Hpath.
  { destruct (Hfrom path (or_introl eq_refl)) as (file & _ & _ & ->).
    apply join_nonempty. exact Hdir. }
  unfold load_folder. rewrite Hdir.
  destruct (map (Path.join folder) (filter Path.is_mp3 files)) as [|m ms]
    eqn:Hmp3.
  { apply Permutation_nil in Hp. discriminate. }
  set (w0 := if playing (self w) then stop_music w else w).
  assert (engine w0 =
            (engine w ++ if playing (self w) then [MusicStop] else [])%list)
    as Hw0.
  { subst w0. unfold stop_music.
    destruct (playing (self w)); cbn; [reflexivity|].
    rewrite app_nil_r. reflexivity. }
  cbn [upd self set_playlist set_current_index playlist].
  rewrite Hshuf. cbn [nth_error].
  cbn [upd self set_current_file issue]. rewrite Hload, Hprobe.
  match goal with
  | |- context [play_music e now (b :: bs) ?w1] =>
      destruct (play_music_started e now b bs w1 path)
        as (w' & Hrun & Hself & Hengine);
      [reflexivity | exact Hpath | exact Hplay | exact Hbusy |]
  end.
  rewrite Hrun. cbn [catch]. exists w'. split; [reflexivity|].
  rewrite Hself, Hengine. cbn. rewrite Hw0.
  repeat split; try assumption.
  rewrite <- !app_assoc. reflexivity.
Qed.

Lemma load_folder_starts_witness :
  exists w',
    load_folder (obliging 10) 7 [true] "/music" (Some ["b.txt"; "a.MP3"; "c.mp3"])
                in_playlist = Ok w' /\
    playlist (self w') = ["/music/a.MP3"; "/music/c.mp3"] /\
    Permutation (map (Path.join "/music")
                     (filter Path.is_mp3 ["b.txt"; "a.MP3"; "c.mp3"]))
                (playlist (self w')) /\
    (forall entry, In entry (playlist (self w')) ->
       exists file,
         In file ["b.txt"; "a.MP3"; "c.mp3"] /\ Path.is_mp3 file = true /\
         entry = Path.join "/music" file) /\
    current_index (self w') = 0%Z /\
    current_file (self w') = Some "/music/a.MP3" /\
    track_length (self w') = 10 /\
    playing (self w') = true /\ paused (self w') = false /\
    offset (self w') = 0 /\ play_start_time (self w') = Some 7 /\
    engine w' =
      (engine in_playlist
         ++ (if playing (self in_playlist) then [MusicStop] else [])
         ++ [MusicLoad "/music/a.MP3"; MusicPlay 0])%list.
Proof.
  apply (load_folder_starts (obliging 10) 7 true [] "/music"
           ["b.txt"; "a.MP3"; "c.mp3"] in_playlist
           "/music/a.MP3" ["/music/c.mp3"] 10).
  - reflexivity.
  - intro l. apply Permutation_refl.
  - reflexivity.
  - reflexivity.
  - reflexivity.
  - reflexivity.
  - right. reflexivity.
Defined.

(** X13: when the mixer cannot open the first file of the new playlist,
    or mutagen cannot read it, [load_folder] shows an error and sets
    the current file to [None]; the new playlist and the index 0 stay in
    place and the player is left stopped. *)
Theorem load_folder_failure_clears e now busy folder files w path rest :
  Path.nonempty folder = true ->
  filter Path.is_mp3 files <> [] ->
  shuffle e (map (Path.join folder) (filter Path.is_mp3 files))
    = path :: rest ->
  music_load e path = false \/ probe_length e path = None ->
  exists w',
    load_folder e now busy folder (Some files) w = Ok w' /\
    current_file (self w') = None /\
    playlist (self w') = path :: rest /\
    current_index (self w') = 0%Z /\
    playing (self w') = false /\
    (exists seen, ui w' = (seen ++ [ShowError "Error"])%list) /\
    engine w' =
      (engine w ++ (if playing (self w) then [MusicStop] else [])
                ++ [MusicLoad path])%list.
Proof.
  intros Hdir Hsome Hshuf Hfail. unfold load_folder. rewrite Hdir.
  destruct (filter Path.is_mp3 files) as [|m ms]; [congruence|].
  cbn [map] in *.
  set (w0 := if playing (self w) then stop_music w else w).
  assert (engine w0 =
            (engine w ++ if playing (self w) then [MusicStop] else [])%list
          /\ playing (self w0) = false) as [Hw0 Hstop].
  { subst w0. unfold stop_music.
    destruct (playing (self w)) eqn:E; cbn; [split; reflexivity|].
    rewrite app_nil_r. split; [reflexivity|exact E]. }
  cbn [upd self set_playlist set_current_index playlist].
  rewrite Hshuf. cbn [nth_error].
  cbn [upd self set_current_file issue].
  destruct (music_load e path) eqn:Hload.
  - destruct Hfail as [Hfail|Hfail]; [discriminate|]. rewrite Hfail.
    eexists. split; [reflexivity|]. cbn. rewrite Hw0.
    repeat split; try assumption.
    + eexists. reflexivity.
    + rewrite <- app_assoc. reflexivity.
  - eexists. split; [reflexivity|]. cbn. rewrite Hw0.
    repeat split; try assumption.
    + eexists. reflexivity.
    + rewrite <- app_assoc. reflexivity.
Qed.

Lemma load_folder_failure_clears_witness :
  exists w',
    load_folder (choking_on "/music/b.mp3" 10) 7 [] "/music"
                (Some ["b.mp3"; "readme"]) in_playlist = Ok w' /\
    current_file (self w') = None /\
    playlist (self w') = ["/music/b.mp3"] /\
    current_index (self w') = 0%Z /\
    playing (self w') = false /\
    (exists seen, ui w' = (seen ++ [ShowError "Error"])%list) /\
    engine w' =
      (engine in_playlist
         ++ (if playing (self in_playlist) then [MusicStop] else [])
         ++ [MusicLoad "/music/b.mp3"])%list.
Proof.
  apply (load_folder_failure_clears (choking_on "/music/b.mp3" 10) 7 []
           "/music" ["b.mp3"; "readme"] in_playlist "/music/b.mp3" []).
  - reflexivity.
  - discriminate.
  - reflexivity.
  - left. reflexivity.
Defined.

(** ** More on starting *)

(** X14: [play_music] without a loaded file (none, or an empty path)
    warns "No File Selected" and makes no call on the mixer; with a
    loaded file and a mixer that refuses to play it shows an error after
    the one refused call.  In both cases no attribute changes: the
    flags, the offset and the segment clock are those from before. *)
Theorem play_music_refused e now busy w :
  current_file (self w) = None \/ music_play e 0 = false ->
  exists w',
    play_music e now busy w = Ok w' /\
    self w' = self w /\
    (current_file (self w) = None ->
       ui w' = (ui w ++ [ShowWarning "No File Selected"])%list /\
       engine w' = engine w) /\
    (forall path,
       current_file (self w) = Some path -> Path.nonempty path = false ->
       ui w' = (ui w ++ [ShowWarning "No File Selected"])%list /\
       engine w' = engine w) /\
    (forall path,
       current_file (self w) = Some path -> Path.nonempty path = true ->
       ui w' = (ui w ++ [ShowError "Error"])%list /\
       engine w' = (engine w ++ [MusicPlay 0])%list).
Proof.
  intro H. unfold play_music.
  destruct (current_file (self w)) as [path|] eqn:Hfile.
  - destruct (Path.nonempty path) eqn:Hpath.
    + destruct H as [H|H]; [discriminate|]. rewrite H. cbn.
      eexists. split; [reflexivity|]. split; [reflexivity|].
      split; [discriminate|]. split.
      * intros path' [= <-] C. congruence.
      * intros path' _ _. split; reflexivity.
    + eexists. split; [reflexivity|]. split; [reflexivity|].
      split; [discriminate|]. split.
      * intros path' _ _. split; reflexivity.
      * intros path' [= <-] C. congruence.
  - eexists. split; [reflexivity|]. split; [reflexivity|].
    split; [intros _; split; reflexivity|].
    split; intros path' C; discriminate.
Qed.

Lemma play_music_refused_witness :
  exists w',
    play_music (mute 10) 3 [true] paused_at_five = Ok w' /\
    self w' = self paused_at_five /\
    ui w' = (ui paused_at_five ++ [ShowError "Error"])%list /\
    engine w' = (engine paused_at_five ++ [MusicPlay 0])%list.
Proof.
  destruct (play_music_refused (mute 10) 3 [true] paused_at_five)
    as (w' & Hrun & Hself & _ & _ & Herror).
  - right. reflexivity.
  - exists w'. destruct (Herror "a.mp3" eq_refl eq_refl) as [Hui Hengine].
    repeat split; assumption.
Defined.

(** X15: whenever the mixer accepts [play] for a loaded file, and
    whatever it answers to [get_busy()] afterwards, a call of
    [play_music] that ends leaves the offset at 0 and the paused flag
    down, and the player either playing with its segment clock at the
    instant of the call, so that its position at that instant is 0, or
    stopped with no clock (the track was found finished and there was no
    playlist). *)
Theorem play_music_resets_offset e now busy w path w' :
  current_file (self w) = Some path ->
  Path.nonempty path = true ->
  music_play e 0 = true ->
  final (play_music e now busy w) = Some w' ->
  offset (self w') = 0 /\
  paused (self w') = false /\
  ((playing (self w') = true /\ play_start_time (self w') = Some now /\
    exists p, position_at now (self w') = Some p /\ p == 0) \/
   (playing (self w') = false /\ play_start_time (self w') = None)).
Proof.
  intros Hfile Hpath Hok Hend.
  pose proof (play_music_restarted e now busy w path Hfile Hpath Hok) as H.
  assert (restarted now (self w')) as Hr.
  { destruct (play_music e now busy w); cbn in Hend, H;
      [injection Hend as <-; exact H
      |injection Hend as <-; exact H
      |discriminate]. }
  pose proof Hr as (Hoff & Hrun & Hcase).
  split; [exact Hoff|]. split; [exact Hrun|].
  destruct Hcase as [[Hplay Hclock]|[Hstop Hclock]].
  - left. split; [exact Hplay|]. split; [exact Hclock|].
    exact (restarted_position now (self w') Hr Hplay).
  - right. split; assumption.
Qed.

Lemma play_music_resets_offset_witness :
  exists w',
    final (play_music (obliging 10) 42 [false] paused_at_five) = Some w' /\
    offset (self w') = 0 /\
    paused (self w') = false /\
    ((playing (self w') = true /\ play_start_time (self w') = Some 42 /\
      exists p, position_at 42 (self w') = Some p /\ p == 0) \/
     (playing (self w') = false /\ play_start_time (self w') = None)).
Proof.
  eexists. split; [vm_compute; reflexivity|].
  apply (play_music_resets_offset (obliging 10) 42 [false] paused_at_five
                                  "a.mp3").
  - reflexivity.
  - reflexivity.
  - reflexivity.
  - vm_compute. reflexivity.
Defined.

(** ** The end of a track *)

(** X16: when the mixer is no longer busy with a playing, unpaused
    track and there is no playlist, [update_progress] shows the position
    and then stops the player: [stop] goes to the mixer, the flags drop,
    the offset returns to 0, the clock is cleared, the progress bar is
    set to 100 last, and no further update is scheduled. *)
Theorem update_progress_ends_single_track e now bs w p file :
  playing (self w) = true ->
  0 < track_length (self w) ->
  paused (self w) = false ->
  position_at now (self w) = Some p ->
  current_file (self w) = Some file ->
  playlist (self w) = [] ->
  exists w' percent,
    update_progress e now (false :: bs) w = Ok w' /\
    engine w' = (engine w ++ [MusicStop])%list /\
    playing (self w') = false /\ paused (self w') = false /\
    offset (self w') = 0 /\ play_start_time (self w') = None /\
    current_file (self w') = Some file /\
    ui w' =
      (ui w ++ [ProgressSet percent;
                StatusTime false file
                           (clamp_to_length (track_length (self w)) p)
                           (track_length (self w));
                StatusStopped; ProgressSet 0; ProgressSet 100])%list.
Proof.
  intros Hplay Hlen Hrun Hpos Hfile Hlist. cbn [update_progress].
  apply Qlt_bool_iff in Hlen. rewrite Hplay, Hlen, Hpos. cbn.
  rewrite Hfile, Hrun, Hlist. cbn. unfold stop_music. cbn. rewrite Hplay.
  eexists. eexists. split; [reflexivity|]. cbn.
  rewrite <- !app_assoc. repeat split; assumption.
Qed.

Lemma update_progress_ends_single_track_witness :
  exists w' percent,
    update_progress (obliging 10) 12 [false] playing_since_one = Ok w' /\
    engine w' = (engine playing_since_one ++ [MusicStop])%list /\
    playing (self w') = false /\ paused (self w') = false /\
    offset (self w') = 0 /\ play_start_time (self w') = None /\
    current_file (self w') = Some "a.mp3" /\
    ui w' =
      (ui playing_since_one
         ++ [ProgressSet percent;
             StatusTime false "a.mp3"
                        (clamp_to_length
                           (track_length (self playing_since_one))
                           (5 + (12 - 1)))
                        (track_length (self playing_since_one));
             StatusStopped; ProgressSet 0; ProgressSet 100])%list.
Proof.
  apply (update_progress_ends_single_track (obliging 10) 12 []
           playing_since_one (5 + (12 - 1)) "a.mp3"); reflexivity.
Defined.

(** [play_next_song] up to the update that ends it, when the next song
    loads and starts. *)
Lemma play_next_song_with_started e progress now w path len :
  playlist (self w) <> [] ->
  nth_error (playlist (self w))
            (Z.to_nat ((current_index (self w) + 1)
                       mod Z.of_nat (List.length (playlist (self w)))))
    = Some path ->
  music_load e path = true ->
  probe_length e path = Some len ->
  music_play e 0 = true ->
  exists w1,
    play_next_song_with e progress now w = catch (progress w1) Ok /\
    self w1 =
      mkPlayer (Some path) true false len 0 (Some now) (playlist (self w))
               ((current_index (self w) + 1)
                mod Z.of_nat (List.length (playlist (self w)))) /\
    engine w1 = (engine w ++ [MusicLoad path; MusicPlay 0])%list /\
    ui w1 = ui w.
Proof.
  intros Hlist Hnth Hload Hprobe Hplay. unfold play_next_song_with.
  destruct (playlist (self w)) as [|a l] eqn:El; [congruence|].
  cbn [upd self playlist set_current_index]. rewrite El, Hnth.
  cbn [upd self set_current_file issue]. rewrite Hload, Hprobe.
  cbn [upd self set_track_length issue engine ui]. rewrite Hplay.
  eexists. split; [reflexivity|]. split; [|split].
  - cbn [self upd issue].
    unfold set_paused, set_playing, set_play_start_time, set_offset,
      set_track_length, set_current_file, set_current_index.
    cbn [current_file playing paused track_length offset play_start_time
         playlist current_index].
    rewrite El. reflexivity.
  - cbn [engine upd issue]. rewrite <- app_assoc. reflexivity.
  - reflexivity.
Qed.

(** X17: when the mixer is no longer busy with a playing, unpaused
    track and there is a playlist, [update_progress] moves on by
    itself: the index advances by one modulo the length of the playlist,
    the song there is loaded and played from 0 with the segment clock at
    the instant of the update, and the playlist is kept. *)
Theorem update_progress_advances e now b bs w p file path len :
  playing (self w) = true ->
  0 < track_length (self w) ->
  paused (self w) = false ->
  position_at now (self w) = Some p ->
  current_file (self w) = Some file ->
  playlist (self w) <> [] ->
  nth_error (playlist (self w))
            (Z.to_nat ((current_index (self w) + 1)
                       mod Z.of_nat (List.length (playlist (self w)))))
    = Some path ->
  music_load e path = true ->
  probe_length e path = Some len ->
  music_play e 0 = true ->
  len <= 0 \/ b = true ->
  exists w',
    update_progress e now (false :: b :: bs) w = Ok w' /\
    current_index (self w') =
      ((current_index (self w) + 1)
       mod Z.of_nat (List.length (playlist (self w))))%Z /\
    current_file (self w') = Some path /\
    track_length (self w') = len /\
    playing (self w') = true /\ paused (self w') = false /\
    offset (self w') = 0 /\ play_start_time (self w') = Some now /\
    playlist (self w') = playlist (self w) /\
    engine w' = (engine w ++ [MusicLoad path; MusicPlay 0])%list.
Proof.
  intros Hplay Hlen Hrun Hpos Hfile Hlist Hnth Hload Hprobe Hok Hbusy.
  cbn [update_progress].
  apply Qlt_bool_iff in Hlen. rewrite Hplay, Hlen, Hpos. cbn [andb].
  cbn [show self]. rewrite Hfile. cbn [show self]. rewrite Hrun.
  cbn [negb andb].
  destruct (playlist (self w)) as [|a l] eqn:El; [congruence|].
  match goal with
  | |- context [play_next_song_with e ?k now ?w0] =>
      destruct (play_next_song_with_started e k now w0 path len)
        as (w1 & Hnext & Hself1 & Hengine1 & _)
  end; try assumption.
  - cbn. rewrite El. discriminate.
  - cbn. rewrite El. exact Hnth.
  - destruct (update_progress_after_start e now b bs w1 path)
      as (w' & Hend & Hself & Hengine).
    + rewrite Hself1. reflexivity.
    + rewrite Hself1. reflexivity.
    + rewrite Hself1. reflexivity.
    + rewrite Hself1. exact Hbusy.
    + exists w'. split.
      * rewrite Hnext.
        transitivity (catch (update_progress e now (b :: bs) w1) Ok);
          [reflexivity|].
        rewrite Hend. reflexivity.
      * rewrite Hself, Hengine, Hself1, Hengine1.
        cbn [current_index current_file track_length playing paused offset
             play_start_time playlist show self engine].
        rewrite El. repeat split.
Qed.

Lemma update_progress_advances_witness :
  exists w',
    update_progress (obliging 10) 12 [false; true] in_playlist = Ok w' /\
    current_index (self w') =
      ((current_index (self in_playlist) + 1)
       mod Z.of_nat (List.length (playlist (self in_playlist))))%Z /\
    current_file (self w') = Some "b.mp3" /\
    track_length (self w') = 10 /\
    playing (self w') = true /\ paused (self w') = false /\
    offset (self w') = 0 /\ play_start_time (self w') = Some 12 /\
    playlist (self w') = playlist (self in_playlist) /\
    engine w' =
      (engine in_playlist ++ [MusicLoad "b.mp3"; MusicPlay 0])%list.
Proof.
  apply (update_progress_advances (obliging 10) 12 true [] in_playlist
           (5 + (12 - 1)) "a.mp3" "b.mp3" 10); try reflexivity.
  - discriminate.
  - right. reflexivity.
Defined.

(** X18: when that automatic move fails because the mixer cannot open
    the next song, [update_progress] still ends normally: the index and
    the current file are those of the song that failed, the playing
    flag, the offset, the segment clock and the duration are those of
    the finished track, nothing is played, no notice is shown and no
    further update is scheduled, so the player stays silent until the
    user acts. *)
Theorem update_progress_advance_fails e now bs w p file path :
  playing (self w) = true ->
  0 < track_length (self w) ->
  paused (self w) = false ->
  position_at now (self w) = Some p ->
  current_file (self w) = Some file ->
  playlist (self w) <> [] ->
  nth_error (playlist (self w))
            (Z.to_nat ((current_index (self w) + 1)
                       mod Z.of_nat (List.length (playlist (self w)))))
    = Some path ->
  music_load e path = false ->
  exists w' percent,
    update_progress e now (false :: bs) w = Ok w' /\
    current_index (self w') =
      ((current_index (self w) + 1)
       mod Z.of_nat (List.length (playlist (self w))))%Z /\
    current_file (self w') = Some path /\
    playing (self w') = true /\ paused (self w') = false /\
    offset (self w') = offset (self w) /\
    play_start_time (self w') = play_start_time (self w) /\
    track_length (self w') = track_length (self w) /\
    engine w' = (engine w ++ [MusicLoad path])%list /\
    ui w' =
      (ui w ++ [ProgressSet percent;
                StatusTime false file
                           (clamp_to_length (track_length (self w)) p)
                           (track_length (self w))])%list.
Proof.
  intros Hplay Hlen Hrun Hpos Hfile Hlist Hnth Hload.
  cbn [update_progress].
  apply Qlt_bool_iff in Hlen. rewrite Hplay, Hlen, Hpos. cbn [andb].
  cbn [show self]. rewrite Hfile. cbn [show self]. rewrite Hrun.
  cbn [negb andb].
  destruct (playlist (self w)) as [|a l] eqn:El; [congruence|].
  unfold play_next_song_with.
  cbn [show upd self playlist set_current_index]. rewrite El, Hnth.
  cbn [upd self set_current_file issue]. rewrite Hload. cbn [catch].
  eexists. eexists. split; [reflexivity|].
  cbn [self engine ui show issue upd set_current_file set_current_index
       current_index current_file playing paused offset play_start_time
       track_length].
  rewrite <- app_assoc. repeat split; assumption.
Qed.

Lemma update_progress_advance_fails_witness :
  exists w' percent,
    update_progress (choking_on "b.mp3" 10) 12 [false] in_playlist = Ok w' /\
    current_index (self w') =
      ((current_index (self in_playlist) + 1)
       mod Z.of_nat (List.length (playlist (self in_playlist))))%Z /\
    current_file (self w') = Some "b.mp3" /\
    playing (self w') = true /\ paused (self w') = false /\
    offset (self w') = offset (self in_playlist) /\
    play_start_time (self w') = play_start_time (self in_playlist) /\
    track_length (self w') = track_length (self in_playlist) /\
    engine w' = (engine in_playlist ++ [MusicLoad "b.mp3"])%list /\
    ui w' =
      (ui in_playlist
         ++ [ProgressSet percent;
             StatusTime false "a.mp3"
                        (clamp_to_length
                           (track_length (self in_playlist))
                           (5 + (12 - 1)))
                        (track_length (self in_playlist))])%list.
Proof.
  apply (update_progress_advance_fails (choking_on "b.mp3" 10) 12 []
           in_playlist (5 + (12 - 1)) "a.mp3" "b.mp3"); try reflexivity.
  discriminate.
Defined.

(** ** Time spent paused *)

(** X19: start a loaded file at [t0], pause at [t1], resume at [t2]:
    while paused the position stands at [t1 - t0] whatever the clock
    reads, and after the resume the position at [t3] is
    [(t1 - t0) + (t3 - t2)]: the time spent paused is not counted. *)
Theorem paused_time_is_not_counted e t0 t1 t2 t3 b bs w path :
  current_file (self w) = Some path ->
  Path.nonempty path = true ->
  music_play e 0 = true ->
  track_length (self w) <= 0 \/ b = true ->
  exists w0,
    play_music e t0 (b :: bs) w = Ok w0 /\
    (forall t, exists q,
        position_at t (self (toggle_pause t1 w0)) = Some q /\
        q == t1 - t0) /\
    (exists q,
        position_at t3 (self (toggle_pause t2 (toggle_pause t1 w0)))
          = Some q /\
        q == (t1 - t0) + (t3 - t2)).
Proof.
  intros Hfile Hpath Hok Hbusy.
  destruct (play_music_started e t0 b bs w path Hfile Hpath Hok Hbusy)
    as (w0 & Hrun & Hself & _).
  exists w0. split; [exact Hrun|].
  assert (playing (self w0) = true /\ paused (self w0) = false /\
          offset (self w0) = 0 /\ play_start_time (self w0) = Some t0)
    as (Hp & Hu & Ho & Hc) by (rewrite Hself; repeat split).
  assert (self (toggle_pause t1 w0)
          = set_paused true (set_play_start_time None
              (set_offset (0 + (t1 - t0)) (self w0)))) as H1.
  { unfold toggle_pause. rewrite Hp, Hu. cbn [negb issue self].
    rewrite Hc, Ho. reflexivity. }
  split.
  - intro t. exists (0 + (t1 - t0)). split; [|ring].
    rewrite H1. reflexivity.
  - exists (0 + (t1 - t0) + (t3 - t2)). split; [|ring].
    unfold toggle_pause at 1. rewrite H1.
    cbn [playing paused set_paused set_play_start_time set_offset negb].
    rewrite Hp. unfold position_at. cbn [self upd issue]. rewrite H1.
    reflexivity.
Qed.

Lemma paused_time_is_not_counted_witness :
  exists w0,
    play_music (obliging 10) 1 [true] loaded_stopped = Ok w0 /\
    (forall t, exists q,
        position_at t (self (toggle_pause 3 w0)) = Some q /\
        q == 3 - 1) /\
    (exists q,
        position_at 9 (self (toggle_pause 7 (toggle_pause 3 w0)))
          = Some q /\
        q == (3 - 1) + (9 - 7)).
Proof.
  apply (paused_time_is_not_counted (obliging 10) 1 3 7 9 true []
                                    loaded_stopped "a.mp3").
  - reflexivity.
  - reflexivity.
  - reflexivity.
  - right. reflexivity.
Defined.

(** ** Witnesses of the invariants of runs *)

Lemma reachable_indexed_witness :
  indexed (self (after (obliging 10) folder_session)).
Proof.
  apply (reachable_indexed (obliging 10)).
  exact folder_session_reached.
Defined.

Lemma obliging_probes_long : probes_long (obliging 10).
Proof.
  intros path len. cbn. intros [= <-]. right. vm_compute. discriminate.
Qed.

Lemma elapsed_bounds_on_long_tracks_witness :
  exists q,
    elapsed 9 (self (after (obliging 10) folder_session)) = Some q /\
    0 <= q <= track_length (self (after (obliging 10) folder_session)).
Proof.
  eexists. split; [vm_compute; reflexivity|].
  apply (elapsed_bounds_on_long_tracks (obliging 10) folder_session
           (after (obliging 10) folder_session) 9).
  - exact obliging_probes_long.
  - exact folder_session_chronological.
  - intros i Hi. cbn in Hi.
    repeat (destruct Hi as [<-|Hi]; [vm_compute; discriminate|]).
    contradiction.
  - vm_compute. reflexivity.
  - reflexivity.
  - vm_compute. reflexivity.
Defined.

(** ** The extension test *)

Section Strings.

Local Open Scope string_scope.

Lemma length_app a b :
  String.length (a ++ b) = (String.length a + String.length b)%nat.
Proof. induction a as [|c a IH]; cbn; [reflexivity|]. rewrite IH. reflexivity. Qed.

Lemma substring_whole s : substring 0 (String.length s) s = s.
Proof. induction s as [|c s IH]; cbn; [reflexivity|]. rewrite IH. reflexivity. Qed.

Lemma substring_after a b :
  substring (String.length a) (String.length b) (a ++ b) = b.
Proof. induction a as [|c a IH]; cbn; [apply substring_whole|exact IH]. Qed.

Lemma substring_split s : forall m,
  (m <= String.length s)%nat ->
  s = substring 0 m s ++ substring m (String.length s - m) s.
Proof.
  induction s as [|c s IH]; intros [|m] Hm; cbn in *; try reflexivity.
  - rewrite substring_whole. reflexivity.
  - rewrite <- IH by lia. reflexivity.
Qed.

Lemma endswith_iff s suffix :
  Path.endswith s suffix = true <-> exists a, s = a ++ suffix.
Proof.
  unfold Path.endswith. split.
  - intro H. apply andb_true_iff in H. destruct H as [Hle Heq].
    apply Nat.leb_le in Hle. apply String.eqb_eq in Heq.
    exists (substring 0 (String.length s - String.length suffix) s).
    pose proof (substring_split s (String.length s - String.length suffix))
      as Hs.
    replace (String.length s - (String.length s - String.length suffix))%nat
      with (String.length suffix) in Hs by lia.
    rewrite Heq in Hs. apply Hs. lia.
  - intros (a & ->). rewrite length_app. apply andb_true_iff. split.
    + apply Nat.leb_le. lia.
    + replace (String.length a + String.length suffix
               - String.length suffix)%nat
        with (String.length a) by lia.
      rewrite substring_after. apply String.eqb_refl.
Qed.

Lemma lower_app a b : Path.lower (a ++ b) = Path.lower a ++ Path.lower b.
Proof. induction a as [|c a IH]; cbn; [reflexivity|]. rewrite IH. reflexivity. Qed.

Lemma lower_app_inv a : forall s b,
  Path.lower s = a ++ b ->
  exists s1 s2, s = s1 ++ s2 /\ Path.lower s1 = a /\ Path.lower s2 = b.
Proof.
  induction a as [|c a IH]; intros s b H.
  - exists "", s. repeat split. exact H.
  - destruct s as [|d s]; [discriminate|]. cbn in H.
    injection H as Hc Hrest.
    destruct (IH s b Hrest) as (s1 & s2 & -> & H1 & H2).
    exists (String d s1), s2. cbn. rewrite Hc, H1. repeat split. exact H2.
Qed.

Lemma length_lower s : String.length (Path.lower s) = String.length s.
Proof. induction s as [|c s IH]; cbn; [reflexivity|]. rewrite IH. reflexivity. Qed.

(** X22: a name passes the extension test of [load_file] and
    [load_folder] exactly when it ends in four characters that are
    [.mp3] once ASCII capitals are lowered ([.mp3], [.MP3], [.Mp3],
    ...); so such a name has at least four characters, and whatever
    precedes the extension does not matter. *)
Theorem is_mp3_iff name :
  (Path.is_mp3 name = true <->
   exists stem ext, name = stem ++ ext /\ Path.lower ext = ".mp3") /\
  (Path.is_mp3 name = true -> (4 <= String.length name)%nat).
Proof.
  assert (Path.is_mp3 name = true <->
          exists stem ext, name = stem ++ ext /\ Path.lower ext = ".mp3")
    as Hiff.
  { unfold Path.is_mp3. rewrite endswith_iff. split.
    - intros (a & H). apply lower_app_inv in H.
      destruct H as (s1 & s2 & -> & _ & H2). exists s1, s2. split; auto.
    - intros (stem & ext & -> & H). exists (Path.lower stem).
      rewrite lower_app, H. reflexivity. }
  split; [exact Hiff|].
  intro H. apply Hiff in H. destruct H as (stem & ext & -> & H).
  rewrite length_app, <- (length_lower ext), H. cbn. lia.
Qed.

End Strings.

(** ** The time display *)

Lemma Qfloor_unique x z :
  inject_Z z <= x -> x < inject_Z (z + 1) -> Qfloor x = z.
Proof.
  intros Hlo Hhi.
  pose proof (Qfloor_le x) as Fl. pose proof (Qlt_floor x) as Fh.
  assert (inject_Z z < inject_Z (Qfloor x + 1)) as H1 by lra.
  assert (inject_Z (Qfloor x) < inject_Z (z + 1)) as H2 by lra.
  rewrite <- Zlt_Qlt in H1, H2. lia.
Qed.

(** The two numbers of a non-negative time. *)
Lemma time_fields_spec s :
  0 <= s ->
  (0 <= fst (time_fields s) /\
   0 <= snd (time_fields s) <= 59 /\
   60 * fst (time_fields s) + snd (time_fields s) = Qfloor s)%Z /\
  (s < 6000 -> (fst (time_fields s) < 100)%Z).
Proof.
  intro Hs. unfold time_fields. cbn [fst snd].
  set (m := Qfloor (s / 60)).
  pose proof (Qfloor_le (s / 60)) as Ml. pose proof (Qlt_floor (s / 60)) as Mh.
  fold m in Ml, Mh. rewrite inject_Z_plus in Mh.
  change (inject_Z 1) with 1 in Mh.
  assert (s / 60 * 60 == s) as Hdiv by (field).
  assert (60 * inject_Z m <= s) as Hlo by lra.
  assert (s < 60 * inject_Z m + 60) as Hhi by lra.
  set (r := Qfloor (s - 60 * inject_Z m)).
  pose proof (Qfloor_le (s - 60 * inject_Z m)) as Rl.
  pose proof (Qlt_floor (s - 60 * inject_Z m)) as Rh.
  fold r in Rl, Rh. rewrite inject_Z_plus in Rh.
  change (inject_Z 1) with 1 in Rh.
  assert (0 <= m)%Z as Hm.
  { assert (inject_Z (-1) < inject_Z m) as H.
    { change (inject_Z (-1)) with (-1). lra. }
    rewrite <- Zlt_Qlt in H. lia. }
  assert (0 <= r)%Z as Hr0.
  { assert (inject_Z (-1) < inject_Z r) as H.
    { change (inject_Z (-1)) with (-1). lra. }
    rewrite <- Zlt_Qlt in H. lia. }
  assert (r <= 59)%Z as Hr1.
  { assert (inject_Z r < inject_Z 60) as H.
    { change (inject_Z 60) with 60. lra. }
    rewrite <- Zlt_Qlt in H. lia. }
  split; [split; [exact Hm|split; [split; assumption|]]|].
  - symmetry. apply Qfloor_unique.
    + rewrite inject_Z_plus, inject_Z_mult.
      change (inject_Z 60) with 60. lra.
    + rewrite !inject_Z_plus, inject_Z_mult.
      change (inject_Z 60) with 60. change (inject_Z 1) with 1. lra.
  - intro H6000.
    assert (inject_Z m < inject_Z 100) as H.
    { change (inject_Z 100) with 100. lra. }
    rewrite <- Zlt_Qlt in H. exact H.
Qed.

(** X23: for a time of [s >= 0] seconds, the two numbers [format_time]
    prints are the whole minutes and the remaining whole seconds of [s]:
    the minutes are not negative, the seconds lie between 0 and 59, and
    sixty times the minutes plus the seconds is [s] rounded down, so a
    fraction of a second never rounds the display up. *)
Theorem format_time_fields s :
  0 <= s ->
  exists minutes seconds,
    format_time s
      = (two_digits minutes ++ String ":" (two_digits seconds))%string /\
    (0 <= minutes)%Z /\
    (0 <= seconds <= 59)%Z /\
    (60 * minutes + seconds)%Z = Qfloor s.
Proof.
  intro Hs. destruct (time_fields_spec s Hs) as [(Hm & Hr & Hsum) _].
  unfold format_time. destruct (time_fields s) as [m r]. cbn [fst snd] in *.
  exists m, r. repeat split; try assumption; apply Hr.
Qed.

Lemma format_time_fields_witness :
  exists minutes seconds,
    format_time (2519 # 20)
      = (two_digits minutes ++ String ":" (two_digits seconds))%string /\
    (0 <= minutes)%Z /\
    (0 <= seconds <= 59)%Z /\
    (60 * minutes + seconds)%Z = Qfloor (2519 # 20).
Proof.
  apply (format_time_fields (2519 # 20)). vm_compute. discriminate.
Defined.

Lemma two_digits_length z :
  (0 <= z < 100)%Z -> String.length (two_digits z) = 2%nat.
Proof.
  intro Hz.
  assert (forallb (fun n => (String.length (two_digits (Z.of_nat n)) =? 2)%nat)
                  (seq 0 100) = true) as Hall by (vm_compute; reflexivity).
  rewrite forallb_forall in Hall.
  specialize (Hall (Z.to_nat z)). rewrite Z2Nat.id in Hall by lia.
  apply Nat.eqb_eq, Hall, in_seq. lia.
Qed.

(** X24: for a time from 0 up to, but not including, 100 minutes,
    [format_time] gives exactly five characters, the third being the
    colon: two digits of minutes and two digits of seconds. *)
Theorem format_time_width s :
  0 <= s -> s < 6000 ->
  String.length (format_time s) = 5%nat /\
  String.get 2 (format_time s) = Some ":"%char.
Proof.
  intros Hs Hmax.
  destruct (time_fields_spec s Hs) as [(Hm & Hr & _) Hbound].
  specialize (Hbound Hmax).
  unfold format_time. destruct (time_fields s) as [m r]. cbn [fst snd] in *.
  pose proof (two_digits_length m ltac:(lia)) as Lm.
  pose proof (two_digits_length r ltac:(lia)) as Lr.
  destruct (two_digits m) as [|c1 [|c2 [|c3 rest]]]; try discriminate.
  cbn. rewrite Lr. split; reflexivity.
Qed.

Lemma format_time_width_witness :
  String.length (format_time (2519 # 20)) = 5%nat /\
  String.get 2 (format_time (2519 # 20)) = Some ":"%char.
Proof.
  apply (format_time_width (2519 # 20)); vm_compute; congruence.
Defined.
